(** * Regional projection calculator of the climate dashboard (src/App.tsx)

    The dashboard component [ClimateAIDashboard] computes, for a selected
    region and year, four projected metrics (formatted with [toFixed(1)])
    and a seven point temperature series.  All arithmetic is done on
    ECMAScript Numbers, i.e. IEEE 754 binary64 values, so the embedding
    starts with an executable model of the Number operations the source
    uses: every finite result is the exact rational result rounded to the
    nearest representable value, ties to even.  The model is checked
    against the Standard Library's [SpecFloat] on the values of the
    calculator (module [Binary64]).

    Contents: the Number model and [toFixed]; the component (table, the two
    operations, the memo cells and the event handlers); the operations as
    the specification words them; the reading of formatted strings; then
    the properties, first of the Number model (monotone rounding,
    representable magnitudes, digit strings), then of the calculator. *)

From Stdlib Require Import ZArith NArith QArith Qround Qabs Qpower Qcanon Bool List Lia Lqa.
From Stdlib Require Import Ascii String DecimalString DecimalN DecimalPos SpecFloat Sorted.
Import ListNotations.

(** ** ECMAScript Numbers *)

Module JS.

Local Open Scope Q_scope.

(** A Number is NaN, an infinity, or a finite value kept as a sign and the
    exact magnitude; [Finite true 0] is the negative zero. *)
Inductive Number : Type :=
| NaN
| Infinity (neg : bool)
| Finite (neg : bool) (mag : Q).

(** [pow2 z] is the rational 2^z. *)
Definition pow2 (z : Z) : Q := 2 ^ z.

(** floor (log2 a) for a positive rational [a]. *)
Definition floor_log2 (a : Q) : Z :=
  let l := (Z.log2 (Qnum a) - Z.log2 (Zpos (Qden a)))%Z in
  if Qle_bool (pow2 l) a then l else (l - 1)%Z.

(** Nearest integer, ties to the even one. *)
Definition round_half_even (x : Q) : Z :=
  let f := Qfloor x in
  match Qcompare (x - inject_Z f) (1 # 2) with
  | Lt => f
  | Gt => (f + 1)%Z
  | Eq => if Z.even f then f else (f + 1)%Z
  end.

(** binary64: 53 bits of precision, least exponent of a unit in the last
    place -1074, overflow threshold 2^1024. *)
Definition ulp_exp (a : Q) : Z := Z.max (floor_log2 a - 52) (-1074).

(** The representable value nearest to the positive rational [a], before
    the overflow test. *)
Definition nearest (a : Q) : Q :=
  let q := ulp_exp a in
  inject_Z (round_half_even (a / pow2 q)) * pow2 q.

(** roundTiesToEven on magnitudes; [None] is overflow. *)
Definition round_mag (a : Q) : option Q :=
  match Qnum a with
  | Z0 => Some 0
  | Zneg _ => Some 0
  | Zpos _ =>
      let r := nearest a in
      if Qle_bool (pow2 1024) r then None else Some (Qred r)
  end.

(** The Number value of a signed magnitude. *)
Definition round_signed (neg : bool) (a : Q) : Number :=
  match round_mag a with
  | Some m => Finite neg m
  | None => Infinity neg
  end.

(** The Number value of a rational (numeric literals, integers). *)
Definition of_Q (x : Q) : Number := round_signed (Qle_bool x 0 && negb (Qeq_bool x 0)) (Qabs x).
Definition of_Z (z : Z) : Number := of_Q (inject_Z z).

(** The signed rational value of a finite Number. *)
Definition signed (neg : bool) (mag : Q) : Q := if neg then - mag else mag.

Definition is_zero (mag : Q) : bool := Qeq_bool mag 0.

(** Number::unaryMinus *)
Definition unaryMinus (x : Number) : Number :=
  match x with
  | NaN => NaN
  | Infinity s => Infinity (negb s)
  | Finite s m => Finite (negb s) m
  end.

(** Number::multiply *)
Definition multiply (x y : Number) : Number :=
  match x, y with
  | NaN, _ | _, NaN => NaN
  | Infinity s, Infinity t => Infinity (xorb s t)
  | Infinity s, Finite t m | Finite t m, Infinity s =>
      if is_zero m then NaN else Infinity (xorb s t)
  | Finite s m, Finite t n => round_signed (xorb s t) (m * n)
  end.

(** Number::divide *)
Definition divide (x y : Number) : Number :=
  match x, y with
  | NaN, _ | _, NaN => NaN
  | Infinity _, Infinity _ => NaN
  | Infinity s, Finite t _ => Infinity (xorb s t)
  | Finite s _, Infinity t => Finite (xorb s t) 0
  | Finite s m, Finite t n =>
      if is_zero n then (if is_zero m then NaN else Infinity (xorb s t))
      else round_signed (xorb s t) (m / n)
  end.

(** Number::add *)
Definition add (x y : Number) : Number :=
  match x, y with
  | NaN, _ | _, NaN => NaN
  | Infinity s, Infinity t => if Bool.eqb s t then Infinity s else NaN
  | Infinity s, Finite _ _ | Finite _ _, Infinity s => Infinity s
  | Finite s m, Finite t n =>
      let v := signed s m + signed t n in
      if Qeq_bool v 0 then Finite (s && t) 0
      else round_signed (Qle_bool v 0) (Qabs v)
  end.

(** Number::subtract *)
Definition subtract (x y : Number) : Number := add x (unaryMinus y).

(** *** Number.prototype.toFixed and the part of Number::toString it uses *)

Local Open Scope string_scope.

(** The digits of the decimal representation of [n], no leading zeroes. *)
Definition decimal (n : Z) : string :=
  NilEmpty.string_of_uint (N.to_uint (Z.to_N n)).

(** [split_at k s] is the first [k] code units of [s] and the others. *)
Fixpoint split_at (k : nat) (s : string) : string * string :=
  match k, s with
  | S k', String c s' => let (a, b) := split_at k' s' in (String c a, b)
  | _, _ => (EmptyString, s)
  end.

Fixpoint zeros (k : nat) : string :=
  match k with
  | O => EmptyString
  | S k' => String "0" (zeros k')
  end.

(** A digit string without its trailing zeroes. *)
Fixpoint strip_trailing_zeros (s : string) : string :=
  match s with
  | EmptyString => EmptyString
  | String c s' =>
      match strip_trailing_zeros s' with
      | EmptyString => if Ascii.eqb c "0" then EmptyString else String c EmptyString
      | t => String c t
      end
  end.

(** Does the integer [c] denote the finite Number of magnitude [x]? *)
Definition denotes (c : Z) (x : Q) : bool :=
  match round_mag (inject_Z c) with
  | Some y => Qeq_bool y x
  | None => false
  end.

(** Number::toString step 5 for an integral magnitude [X] of [D] decimal
    digits: the least number [k] of significant digits for which an integer
    with [k] significant digits denotes [x]; of two such integers the one
    closer to [X], the even one on a tie.  [fuel] counts the digit numbers
    still to try: with [fuel = S j] the candidates are the two multiples of
    10^j around [X], so [fuel = D] tries one significant digit and
    [fuel = 1] tries [X] itself. *)
Fixpoint shortest (x : Q) (X : Z) (fuel : nat) : Z :=
  match fuel with
  | O => X
  | S fuel' =>
      let p := (10 ^ Z.of_nat fuel')%Z in
      let lo := (X / p)%Z in
      let c1 := (lo * p)%Z in
      let c2 := ((lo + 1) * p)%Z in
      match denotes c1 x, denotes c2 x with
      | true, true =>
          match (X - c1 ?= c2 - X)%Z with
          | Lt => c1
          | Gt => c2
          | Eq => if Z.even lo then c1 else c2
          end
      | true, false => c1
      | false, true => c2
      | false, false => shortest x X fuel'
      end
  end.

(** Scientific notation of a positive integer [c], with its trailing
    zeroes dropped from the significand: d[.ddd]e+x (Number::toString,
    the case n > 21). *)
Definition scientific (c : Z) : string :=
  let ds := decimal c in
  let n := String.length ds in
  let (a, rest) := split_at 1 ds in
  let b := strip_trailing_zeros rest in
  let e := decimal (Z.of_nat (n - 1)) in
  match b with
  | EmptyString => a ++ "e+" ++ e
  | _ => a ++ "." ++ b ++ "e+" ++ e
  end.

(** Number::toString for a finite magnitude of at least 10^21, which is an
    integer: always scientific notation with a positive exponent. *)
Definition toString_large (x : Q) : string :=
  let X := Qfloor x in
  scientific (shortest x X (String.length (decimal X))).

(** Let n be an integer for which n / 10^f - x is as close to zero as
    possible; if there are two such n, pick the larger. *)
Definition nearest_scaled (f : nat) (x : Q) : Z :=
  Qfloor (x * inject_Z (10 ^ Z.of_nat f) + (1 # 2)).

(** Number.prototype.toFixed(f), for 0 <= f <= 100. *)
Definition toFixed (f : nat) (x : Number) : string :=
  match x with
  | NaN => "NaN"
  | Infinity false => "Infinity"
  | Infinity true => "-Infinity"
  | Finite neg mag =>
      let s := if (neg && negb (is_zero mag))%bool then "-" else "" in
      if Qle_bool (inject_Z (10 ^ 21)) mag then s ++ toString_large mag
      else
        let n := nearest_scaled f mag in
        let m := decimal n in
        let k := String.length m in
        let m := if (k <=? f)%nat then zeros (f + 1 - k) ++ m else m in
        let k := if (k <=? f)%nat then (f + 1)%nat else k in
        match f with
        | O => s ++ m
        | _ => let (a, b) := split_at (k - f) m in s ++ a ++ "." ++ b
        end
  end.

End JS.

(** ** The dashboard component (src/App.tsx, lines 221-318) *)

Import JS.
Local Open Scope string_scope.

(** [const regions = [...] as const; type Region = typeof regions[number]] *)
Inductive Region : Type :=
| Global | NorthAmerica | Europe | Asia | Africa | SouthAmerica | Oceania.

Definition region_name (r : Region) : string :=
  match r with
  | Global => "Global"
  | NorthAmerica => "North America"
  | Europe => "Europe"
  | Asia => "Asia"
  | Africa => "Africa"
  | SouthAmerica => "South America"
  | Oceania => "Oceania"
  end.

Definition regions : list Region :=
  [Global; NorthAmerica; Europe; Asia; Africa; SouthAmerica; Oceania].

Definition Region_eqb (a b : Region) : bool :=
  String.eqb (region_name a) (region_name b).

(** A numeric literal of the source denotes the nearest Number. *)
Definition lit (q : Q) : Number := of_Q q.

Module Factors.
Record t : Type := mk
  { temperature : Number;
    precipitation : Number;
    seaLevel : Number;
    extremeEvents : Number }.
End Factors.

Module Point.
Record t : Type := mk { year : Number; temperature : Number }.
End Point.

Module Metrics.
Record t : Type := mk
  { temperature : string;
    precipitation : string;
    seaLevel : string;
    extremeEvents : string }.
End Metrics.

(** The object literal [regionalFactors], one property per line of the
    source, in source order. *)
Definition regionalFactors : list (Region * Factors.t) :=
  [ (Global, Factors.mk (lit 1) (lit 1) (lit 1) (lit 1));
    (NorthAmerica, Factors.mk (lit (12 # 10)) (lit (13 # 10)) (lit (8 # 10)) (lit (11 # 10)));
    (Europe, Factors.mk (lit (11 # 10)) (lit (12 # 10)) (lit (9 # 10)) (lit (12 # 10)));
    (Asia, Factors.mk (lit (13 # 10)) (lit (14 # 10)) (lit (12 # 10)) (lit (13 # 10)));
    (Africa, Factors.mk (lit (14 # 10)) (lit (7 # 10)) (lit (11 # 10)) (lit (14 # 10)));
    (SouthAmerica, Factors.mk (lit (11 # 10)) (lit (15 # 10)) (lit (10 # 10)) (lit (12 # 10)));
    (Oceania, Factors.mk (lit (12 # 10)) (lit (9 # 10)) (lit (13 # 10)) (lit (11 # 10))) ].

(** Evaluation either returns a value or throws; the only throw the
    calculator could perform is the TypeError of reading a property of
    [undefined]. *)
Inductive Completion (A : Type) : Type :=
| Normal (a : A)
| ThrowTypeError.
Arguments Normal {A} a.
Arguments ThrowTypeError {A}.

Definition bind {A B} (c : Completion A) (k : A -> Completion B) : Completion B :=
  match c with
  | Normal a => k a
  | ThrowTypeError => ThrowTypeError
  end.

Notation "x <- c ;; k" := (bind c (fun x => k))
  (at level 61, c at next level, right associativity).

(** Property lookup [table[region]]: [None] is [undefined]. *)
Fixpoint lookup (table : list (Region * Factors.t)) (region : Region)
  : option Factors.t :=
  match table with
  | [] => None
  | (k, v) :: rest => if Region_eqb k region then Some v else lookup rest region
  end.

(** Reading a property of the looked up entry. *)
Definition field {A} (o : option Factors.t) (f : Factors.t -> A) : Completion A :=
  match o with
  | Some v => Normal (f v)
  | None => ThrowTypeError
  end.

Section Calculator.

(** The table the calculator reads. *)
Variable table : list (Region * Factors.t).

(** [getRegionalHistoricalData] (lines 250-261). *)
Definition getRegionalHistoricalData (region : Region) : Completion (list Point.t) :=
  let factor := lookup table region in
  t1900 <- field factor Factors.temperature ;;
  t1950 <- field factor Factors.temperature ;;
  t2000 <- field factor Factors.temperature ;;
  t2023 <- field factor Factors.temperature ;;
  t2030 <- field factor Factors.temperature ;;
  t2040 <- field factor Factors.temperature ;;
  t2050 <- field factor Factors.temperature ;;
  Normal
    [ Point.mk (lit 1900) (multiply (unaryMinus (lit (2 # 10))) t1900);
      Point.mk (lit 1950) (multiply (lit 0) t1950);
      Point.mk (lit 2000) (multiply (lit (5 # 10)) t2000);
      Point.mk (lit 2023) (multiply (lit (11 # 10)) t2023);
      Point.mk (lit 2030) (multiply (lit (13 # 10)) t2030);
      Point.mk (lit 2040) (multiply (lit (14 # 10)) t2040);
      Point.mk (lit 2050) (multiply (lit (16 # 10)) t2050) ].

(** The callback of [const metrics = useMemo(...)] (lines 297-313), as a
    function of the two state variables it reads. *)
Definition metrics (selectedRegion : Region) (selectedYear : Number)
  : Completion Metrics.t :=
  let baseYear := lit 2023 in
  let yearDiff := subtract selectedYear baseYear in
  let factors := lookup table selectedRegion in
  let baseTempIncrease :=
    add (lit (11 # 10))
        (divide (multiply yearDiff (subtract (lit (16 # 10)) (lit (11 # 10))))
                (subtract (lit 2050) (lit 2023))) in
  let basePrecipChange :=
    divide (multiply yearDiff (lit (53 # 10))) (subtract (lit 2050) (lit 2023)) in
  let baseSeaLevelRise :=
    divide (multiply yearDiff (lit (263 # 10))) (subtract (lit 2050) (lit 2023)) in
  let baseExtremeEvents :=
    divide (multiply yearDiff (lit 32)) (subtract (lit 2050) (lit 2023)) in
  ft <- field factors Factors.temperature ;;
  fp <- field factors Factors.precipitation ;;
  fs <- field factors Factors.seaLevel ;;
  fe <- field factors Factors.extremeEvents ;;
  Normal
    (Metrics.mk (toFixed 1 (multiply baseTempIncrease ft))
                (toFixed 1 (multiply basePrecipChange fp))
                (toFixed 1 (multiply baseSeaLevelRise fs))
                (toFixed 1 (multiply baseExtremeEvents fe))).

End Calculator.

(** *** The two [useMemo] cells and the state of the component *)

(** [Object.is] on Numbers (magnitudes are kept in lowest terms). *)
Definition sameValue (x y : Number) : bool :=
  match x, y with
  | NaN, NaN => true
  | Infinity s, Infinity t => Bool.eqb s t
  | Finite s m, Finite t n =>
      Bool.eqb s t && Z.eqb (Qnum m) (Qnum n) && Pos.eqb (Qden m) (Qden n)
  | _, _ => false
  end.

(** [useMemo(f, deps)]: the cell keeps the dependencies and the value of the
    last computation; [f] runs again when a dependency changed. *)
Definition useMemo {D A : Type} (same : D -> D -> bool)
    (cell : option (D * A)) (deps : D) (f : D -> Completion A)
  : Completion (A * option (D * A)) :=
  let compute := a <- f deps ;; Normal (a, Some (deps, a)) in
  match cell with
  | Some (d, a) => if same d deps then Normal (a, cell) else compute
  | None => compute
  end.

Record Hooks : Type := mkHooks
  { selectedRegion : Region;
    selectedYear : Number;
    metricsCell : option ((Number * Region) * Metrics.t);
    historicalCell : option (Region * list Point.t) }.

(** The module level table together with the component's hooks. *)
Record World : Type := mkWorld
  { moduleTable : list (Region * Factors.t);
    hooks : Hooks }.

(** What one rendering hands to the cards and to the chart. *)
Record View : Type := mkView
  { viewMetrics : Metrics.t;
    viewHistoricalData : list Point.t }.

Definition sameDeps (a b : Number * Region) : bool :=
  sameValue (fst a) (fst b) && Region_eqb (snd a) (snd b).

(** One call of [ClimateAIDashboard()]. *)
Definition render (w : World) : Completion (View * World) :=
  let h := hooks w in
  mc <- useMemo sameDeps (metricsCell h) (selectedYear h, selectedRegion h)
          (fun d => metrics (moduleTable w) (snd d) (fst d)) ;;
  hc <- useMemo Region_eqb (historicalCell h) (selectedRegion h)
          (getRegionalHistoricalData (moduleTable w)) ;;
  Normal (mkView (fst mc) (fst hc),
          mkWorld (moduleTable w)
                  (mkHooks (selectedRegion h) (selectedYear h) (snd mc) (snd hc))).

(** The two [onChange] handlers: the region select offers the elements of
    [regions]; the slider value goes through [parseInt]. *)
Inductive Event : Type :=
| SelectRegion (r : Region)
| SlideYear (y : Z).

Definition handle (e : Event) (w : World) : World :=
  let h := hooks w in
  match e with
  | SelectRegion r =>
      mkWorld (moduleTable w)
              (mkHooks r (selectedYear h) (metricsCell h) (historicalCell h))
  | SlideYear y =>
      mkWorld (moduleTable w)
              (mkHooks (selectedRegion h) (of_Z y) (metricsCell h) (historicalCell h))
  end.

(** [useState<Region>('Global')], [useState(2050)], empty memo cells. *)
Definition mount : World :=
  mkWorld regionalFactors (mkHooks Global (lit 2050) None None).

(** The first rendering, then one rendering after each event. *)
Fixpoint run (es : list Event) (vw : View * World) : Completion (View * World) :=
  match es with
  | [] => Normal vw
  | e :: es' => vw' <- render (handle e (snd vw)) ;; run es' vw'
  end.

Definition session (es : list Event) : Completion (View * World) :=
  vw <- render mount ;; run es vw.

(** ** The operations as the specification words them *)

(** computeMetrics: with yearDiff = year - 2023, each base is the linear
    interpolation of the specification, multiplied by the regional factor
    and formatted to one decimal place. *)
Definition yearDiff (year : Number) : Number := subtract year (lit 2023).

Definition base_temperature (year : Number) : Number :=
  add (lit (11 # 10))
      (divide (multiply (yearDiff year) (subtract (lit (16 # 10)) (lit (11 # 10))))
              (lit 27)).

Definition base_precipitation (year : Number) : Number :=
  divide (multiply (yearDiff year) (lit (53 # 10))) (lit 27).

Definition base_seaLevel (year : Number) : Number :=
  divide (multiply (yearDiff year) (lit (263 # 10))) (lit 27).

Definition base_extremeEvents (year : Number) : Number :=
  divide (multiply (yearDiff year) (lit 32)) (lit 27).

Definition spec_computeMetrics (factor : Factors.t) (year : Number) : Metrics.t :=
  Metrics.mk
    (toFixed 1 (multiply (base_temperature year) (Factors.temperature factor)))
    (toFixed 1 (multiply (base_precipitation year) (Factors.precipitation factor)))
    (toFixed 1 (multiply (base_seaLevel year) (Factors.seaLevel factor)))
    (toFixed 1 (multiply (base_extremeEvents year) (Factors.extremeEvents factor))).

Definition anchor_years : list Number :=
  [lit 1900; lit 1950; lit 2000; lit 2023; lit 2030; lit 2040; lit 2050].

Definition base_deviations : list Number :=
  [unaryMinus (lit (2 # 10)); lit 0; lit (5 # 10); lit (11 # 10);
   lit (13 # 10); lit (14 # 10); lit (16 # 10)].

(** getHistoricalSeries: one point per anchor year, the base deviation
    times the temperature factor, in anchor order. *)
Definition spec_getHistoricalSeries (factor : Factors.t) : list Point.t :=
  map (fun yd => Point.mk (fst yd) (multiply (snd yd) (Factors.temperature factor)))
      (combine anchor_years base_deviations).

(** ** Reading the formatted strings *)

Definition digit_value (c : ascii) : option N :=
  (if Ascii.eqb c "0" then Some 0
   else if Ascii.eqb c "1" then Some 1
   else if Ascii.eqb c "2" then Some 2
   else if Ascii.eqb c "3" then Some 3
   else if Ascii.eqb c "4" then Some 4
   else if Ascii.eqb c "5" then Some 5
   else if Ascii.eqb c "6" then Some 6
   else if Ascii.eqb c "7" then Some 7
   else if Ascii.eqb c "8" then Some 8
   else if Ascii.eqb c "9" then Some 9
   else None)%N.

Definition is_digit (c : ascii) : bool :=
  match digit_value c with Some _ => true | None => false end.

Fixpoint all_digits (s : string) : bool :=
  match s with
  | EmptyString => true
  | String c s' => is_digit c && all_digits s'
  end.

(** The natural number a digit string denotes, after the digits [acc]. *)
Fixpoint digits_value (s : string) (acc : N) : option N :=
  match s with
  | EmptyString => Some acc
  | String c s' =>
      match digit_value c with
      | Some d => digits_value s' (acc * 10 + d)%N
      | None => None
      end
  end.

(** [cut c s]: the part of [s] before the first [c], and the part after it
    when there is one. *)
Fixpoint cut (c : ascii) (s : string) : string * option string :=
  match s with
  | EmptyString => (EmptyString, None)
  | String d s' =>
      if Ascii.eqb d c then (EmptyString, Some s')
      else let (a, b) := cut c s' in (String d a, b)
  end.

Definition unsign (s : string) : bool * string :=
  match s with
  | String c s' => if Ascii.eqb c "-" then (true, s') else (false, s)
  | EmptyString => (false, s)
  end.

(** A string with exactly one fractional digit: an optional sign, one or
    more digits, a point, one digit. *)
Definition one_fraction_digit (s : string) : bool :=
  let (ip, fp) := cut "." (snd (unsign s)) in
  match fp with
  | Some (String d EmptyString) =>
      negb (String.eqb ip EmptyString) && all_digits ip && is_digit d
  | _ => false
  end.

(** The mathematical value of a numeral: finite or an infinity. *)
Inductive Value : Type :=
| VInfinity (neg : bool)
| VFinite (q : Q).

Definition Value_le (a b : Value) : Prop :=
  match a, b with
  | VInfinity true, _ => True
  | _, VInfinity false => True
  | VFinite p, VFinite q => (p <= q)%Q
  | _, _ => False
  end.

(** digits [. digits] [e+ digits] *)
Definition unsigned_value (s : string) : option Q :=
  let (mant, expo) := cut "e" s in
  let (ip, fp) := cut "." mant in
  let fp := match fp with Some f => f | None => EmptyString end in
  let scale := inject_Z (10 ^ Z.of_nat (String.length fp)) in
  match ip, digits_value (ip ++ fp) 0 with
  | String _ _, Some m =>
      match expo with
      | None => Some (inject_Z (Z.of_N m) / scale)%Q
      | Some (String sg (String c e)) =>
          match Ascii.eqb sg "+", digits_value (String c e) 0 with
          | true, Some ev =>
              Some (inject_Z (Z.of_N m * 10 ^ Z.of_N ev) / scale)%Q
          | _, _ => None
          end
      | Some _ => None
      end
  | _, _ => None
  end.

(** The value of a string that [toFixed] or [toString] produced; "NaN" has
    none. *)
Definition numeric_value (s : string) : option Value :=
  let (neg, body) := unsign s in
  if String.eqb body "Infinity" then Some (VInfinity neg)
  else match unsigned_value body with
       | Some q => Some (VFinite (if neg then - q else q)%Q)
       | None => None
       end.

(** Numeric comparison of two formatted values. *)
Definition numeric_le (s1 s2 : string) : Prop :=
  match numeric_value s1, numeric_value s2 with
  | Some v1, Some v2 => Value_le v1 v2
  | _, _ => False
  end.

(** ** The order of Numbers *)

(** The value of a Number; NaN has none. *)
Definition val (x : Number) : option Value :=
  match x with
  | NaN => None
  | Infinity s => Some (VInfinity s)
  | Finite s m => Some (VFinite (signed s m))
  end.

(** Magnitudes are not negative. *)
Definition wf (x : Number) : Prop :=
  match x with
  | Finite _ m => (0 <= m)%Q
  | _ => True
  end.

(** [x <= y] for two Numbers that are not NaN. *)
Definition num_le (x y : Number) : Prop :=
  wf x /\ wf y /\
  match val x, val y with
  | Some a, Some b => Value_le a b
  | _, _ => False
  end.

(** Overflow is above every magnitude. *)
Definition mag_le (a b : option Q) : Prop :=
  match a, b with
  | Some x, Some y => (x <= y)%Q
  | _, None => True
  | None, Some _ => False
  end.

(** A finite Number whose magnitude is below 10^21, the range in which
    [toFixed] prints fixed notation. *)
Definition small (x : Number) : bool :=
  match x with
  | Finite _ m => negb (Qle_bool (inject_Z (10 ^ 21)) m)
  | _ => false
  end.

(** The magnitude that [toFixed(1)] prints for the magnitude [m]. *)
Definition printed (m : Q) : Q :=
  if Qle_bool (inject_Z (10 ^ 21)) m
  then inject_Z (shortest m (Qfloor m) (String.length (decimal (Qfloor m))))
  else (inject_Z (nearest_scaled 1 m) / inject_Z (10 ^ Z.of_nat 1))%Q.

(** A finite Number whose magnitude is a value of the rounding. *)
Definition canonical (x : Number) : Prop :=
  match x with
  | Finite _ m => round_mag m = Some m
  | _ => True
  end.

(** ** The same arithmetic over the Standard Library's binary64

    [SpecFloat] is the Standard Library's specification of IEEE 754
    arithmetic on sign, mantissa and exponent.  The calculator's values are
    computed a second time with its operations, to check the Number model
    above against it. *)

Module Binary64.

Definition prec : Z := 53.
Definition emax : Z := 1024.

(** A Number as a [spec_float]: the denominator of a magnitude is a power
    of two. *)
Definition to_spec (x : Number) : spec_float :=
  match x with
  | NaN => S754_nan
  | Infinity s => S754_infinity s
  | Finite s m =>
      if is_zero m then S754_zero s
      else binary_normalize prec emax
             (if s then - Qnum m else Qnum m)%Z
             (- Z.log2 (Zpos (Qden m)))%Z s
  end.

Definition sf_of_Z (z : Z) : spec_float := binary_normalize prec emax z 0 false.

(** The literal n/d: the correctly rounded quotient of two integers. *)
Definition sf_lit (n d : Z) : spec_float := SFdiv prec emax (sf_of_Z n) (sf_of_Z d).

Definition sf_base (slope year : spec_float) : spec_float :=
  SFdiv prec emax
    (SFmul prec emax (SFsub prec emax year (sf_of_Z 2023)) slope)
    (SFsub prec emax (sf_of_Z 2050) (sf_of_Z 2023)).

(** The four scaled values of [metrics], before [toFixed]. *)
Definition sf_values (f : Factors.t) (year : spec_float) : list spec_float :=
  [ SFmul prec emax
      (SFadd prec emax (sf_lit 11 10)
         (sf_base (SFsub prec emax (sf_lit 16 10) (sf_lit 11 10)) year))
      (to_spec (Factors.temperature f));
    SFmul prec emax (sf_base (sf_lit 53 10) year) (to_spec (Factors.precipitation f));
    SFmul prec emax (sf_base (sf_lit 263 10) year) (to_spec (Factors.seaLevel f));
    SFmul prec emax (sf_base (sf_of_Z 32) year) (to_spec (Factors.extremeEvents f)) ].

Definition js_values (f : Factors.t) (year : Number) : list Number :=
  [ multiply (base_temperature year) (Factors.temperature f);
    multiply (base_precipitation year) (Factors.precipitation f);
    multiply (base_seaLevel year) (Factors.seaLevel f);
    multiply (base_extremeEvents year) (Factors.extremeEvents f) ].

(** The seven temperatures of the series. *)
Definition sf_series (f : Factors.t) : list spec_float :=
  map (fun d => SFmul prec emax d (to_spec (Factors.temperature f)))
      [ SFopp (sf_lit 2 10); sf_of_Z 0; sf_lit 5 10; sf_lit 11 10;
        sf_lit 13 10; sf_lit 14 10; sf_lit 16 10 ].

Definition sf_eqb (a b : spec_float) : bool :=
  match a, b with
  | S754_nan, S754_nan => true
  | S754_infinity s, S754_infinity t => Bool.eqb s t
  | S754_zero s, S754_zero t => Bool.eqb s t
  | S754_finite s m e, S754_finite t n e' => Bool.eqb s t && Pos.eqb m n && Z.eqb e e'
  | _, _ => false
  end.

Fixpoint all_eqb (l1 l2 : list spec_float) : bool :=
  match l1, l2 with
  | [], [] => true
  | a :: l1', b :: l2' => sf_eqb a b && all_eqb l1' l2'
  | _, _ => false
  end.

(** Both computations agree on every region at the year [year]. *)
Definition agree (year : Z) : bool :=
  forallb (fun e => all_eqb (map to_spec (js_values (snd e) (of_Z year)))
                            (sf_values (snd e) (sf_of_Z year)))
          regionalFactors.

Definition agree_series : bool :=
  forallb (fun e => all_eqb (map (fun p => to_spec (Point.temperature p))
                                 (spec_getHistoricalSeries (snd e)))
                            (sf_series (snd e)))
          regionalFactors.

Definition years (lo : Z) (n : nat) : list Z :=
  map (fun k => (lo + Z.of_nat k)%Z) (seq 0 n).

End Binary64.

(** ** Auxiliary definitions of the proofs *)

(** The finite case of [add]: the exact sum [v], rounded. *)
Definition add_exact (z : bool) (v : Q) : Number :=
  if Qeq_bool v 0 then Finite z 0 else round_signed (Qle_bool v 0) (Qabs v).

(** The character [c] is no digit. *)
Definition not_digit (c : ascii) : Prop := is_digit c = false.

(** The sign that [toFixed] prints. *)
Definition sign_of (s : bool) (m : Q) : string :=
  if s && negb (is_zero m) then "-" else "".

(** ** Invariants of the table and of a session *)

(** A strictly positive finite Number. *)
Definition is_positive (x : Number) : bool :=
  match x with
  | Finite false m => negb (Qle_bool m 0)
  | _ => false
  end.

Definition positive_factors (f : Factors.t) : bool :=
  is_positive (Factors.temperature f) && is_positive (Factors.precipitation f)
  && is_positive (Factors.seaLevel f) && is_positive (Factors.extremeEvents f).

(** The number of entries of a table under the key [r]. *)
Definition entries (table : list (Region * Factors.t)) (r : Region) : nat :=
  List.length (filter (fun e => Region_eqb (fst e) r) table).

(** A memo cell holds a value that its function returns on the kept
    dependencies. *)
Definition cell_ok {D A : Type} (f : D -> Completion A) (cell : option (D * A)) : Prop :=
  match cell with
  | Some (d, a) => f d = Normal a
  | None => True
  end.

Definition world_ok (w : World) : Prop :=
  moduleTable w = regionalFactors /\
  cell_ok (fun d => metrics regionalFactors (snd d) (fst d)) (metricsCell (hooks w)) /\
  cell_ok (getRegionalHistoricalData regionalFactors) (historicalCell (hooks w)).

(** The view shows what the calculator returns on the current selection. *)
Definition shows (v : View) (w : World) : Prop :=
  metrics regionalFactors (selectedRegion (hooks w)) (selectedYear (hooks w))
    = Normal (viewMetrics v) /\
  getRegionalHistoricalData regionalFactors (selectedRegion (hooks w))
    = Normal (viewHistoricalData v).

(** * The page around the calculator *)

(** ** The year handler and [parseInt] (line 352) *)







(** ** The four metric cards (lines 360-384) *)

(** The degree sign U+00B0, in UTF-8. *)
Definition degree : string :=
  String (ascii_of_nat 194) (String (ascii_of_nat 176) EmptyString).

Record MetricCardProps : Type := mkCard
  { title : string;
    value : string }.

(** The [title] and [value] props of the four [MetricCard] elements; every
    value is a template literal that starts with "+". *)
Definition metricCards (m : Metrics.t) : list MetricCardProps :=
  [ mkCard "Temperature" ("+" ++ Metrics.temperature m ++ degree ++ "C");
    mkCard "Precipitation" ("+" ++ Metrics.precipitation m ++ "%");
    mkCard "Sea Level Rise" ("+" ++ Metrics.seaLevel m ++ "cm");
    mkCard "Extreme Events" ("+" ++ Metrics.extremeEvents m ++ "%") ].

(** A value of the form +d...d.d followed by the unit. *)
Definition plain_card_value (unit v : string) : bool :=
  match v with
  | String c rest =>
      Ascii.eqb c "+" &&
      (let (ip, fp) := cut "." rest in
       match fp with
       | Some (String d u) =>
           negb (String.eqb ip EmptyString) && all_digits ip && is_digit d
           && String.eqb u unit
       | _ => false
       end)
  | EmptyString => false
  end.

(** ** The application shell ([function App], lines 26-198) *)

(** The three [NavItem] elements; [onClick] sets the section key. *)
Inductive NavTarget : Type := NavDashboard | NavAbout | NavResources.

Definition section_key (t : NavTarget) : string :=
  match t with
  | NavDashboard => "dashboard"
  | NavAbout => "about"
  | NavResources => "resources"
  end.

Record NavItemProps : Type := mkNavItem
  { label : string;
    active : bool;
    onClick : NavTarget }.

Definition navItems (activeSection : string) : list NavItemProps :=
  [ mkNavItem "Dashboard" (String.eqb activeSection "dashboard") NavDashboard;
    mkNavItem "About" (String.eqb activeSection "about") NavAbout;
    mkNavItem "Resources" (String.eqb activeSection "resources") NavResources ].

(** The children of [<main>]: each of the three conditional expressions
    contributes its element or nothing. *)
Inductive MainSection : Type :=
| SectionDashboard (v : View)
| SectionAbout
| SectionResources.

Record AppView : Type := mkAppView
  { nav : list NavItemProps;
    mainSections : list MainSection }.

(** [activeSection], and the state of the [ClimateAIDashboard] element
    while it is mounted. *)
Record AppState : Type := mkAppState
  { activeSection : string;
    dashboardState : option World }.

(** One rendering of [App]: the dashboard element is rendered only under
    [activeSection === 'dashboard']; it keeps its hooks while it stays
    mounted, is mounted afresh when it appears, and loses its hooks when it
    disappears. *)
Definition render_app (st : AppState) : Completion (AppView * AppState) :=
  let a := activeSection st in
  dash <- (if String.eqb a "dashboard"
           then vw <- render (match dashboardState st with
                              | Some w => w
                              | None => mount
                              end) ;;
                Normal (Some vw)
           else Normal None) ;;
  Normal
    (mkAppView (navItems a)
       ((match dash with Some vw => [SectionDashboard (fst vw)] | None => [] end)
        ++ (if String.eqb a "about" then [SectionAbout] else [])
        ++ (if String.eqb a "resources" then [SectionResources] else [])),
     mkAppState a (match dash with Some vw => Some (snd vw) | None => None end)).

(** A click on a [NavItem], or an event of the dashboard's controls (which
    exist only while the dashboard is mounted). *)
Inductive AppEvent : Type :=
| Click (t : NavTarget)
| OnDashboard (e : Event).

Definition handle_app (e : AppEvent) (st : AppState) : AppState :=
  match e with
  | Click t => mkAppState (section_key t) (dashboardState st)
  | OnDashboard e =>
      mkAppState (activeSection st)
        (match dashboardState st with
         | Some w => Some (handle e w)
         | None => None
         end)
  end.

(** [useState('dashboard')]; nothing is mounted before the first
    rendering. *)
Definition mount_app : AppState := mkAppState "dashboard" None.

Fixpoint run_app (es : list AppEvent) (vs : AppView * AppState)
  : Completion (AppView * AppState) :=
  match es with
  | [] => Normal vs
  | e :: es' => vs' <- render_app (handle_app e (snd vs)) ;; run_app es' vs'
  end.

Definition session_app (es : list AppEvent) : Completion (AppView * AppState) :=
  vs <- render_app mount_app ;; run_app es vs.

(** ** Predicates of the further properties *)

(** The units of the four cards. *)
Definition card_units : list string := [degree ++ "C"; "%"; "cm"; "%"].

(** A Number that [toFixed(1)] prints in fixed notation without a sign: it
    is zero or positive, and below 10^21. *)
Definition plain (x : Number) : bool :=
  match x with
  | Finite s m => (negb s || is_zero m) && negb (Qle_bool (inject_Z (10 ^ 21)) m)
  | _ => false
  end.

(** A Number below zero. *)
Definition negative (x : Number) : bool :=
  match x with
  | Infinity s => s
  | Finite s m => s && negb (is_zero m)
  | NaN => false
  end.

(** The events that the controls of the page can produce: the slider has
    [min="2023"] and [max="2050"]. *)
Definition slider_event (e : Event) : Prop :=
  match e with
  | SelectRegion _ => True
  | SlideYear y => (2023 <= y <= 2050)%Z
  end.

(** The year is one of the slider. *)
Definition slider_year (w : World) : Prop :=
  exists y, (2023 <= y <= 2050)%Z /\ selectedYear (hooks w) = of_Z y.

(** Strictly below, for two Numbers that are not NaN. *)
Definition num_lt (x y : Number) : Prop :=
  num_le x y /\ ~ num_le y x.

(** The section that the clicks of a session select: the target of the last
    click, and the dashboard when there was none. *)
Definition current_section (es : list AppEvent) : NavTarget :=
  fold_left (fun t e => match e with Click t' => t' | OnDashboard _ => t end)
            es NavDashboard.

(** The dashboard state of [App], when there is one, satisfies the
    invariant of a session. *)
Definition app_ready (st : AppState) : Prop :=
  forall w, dashboardState st = Some w -> world_ok w.

(** What a rendering of [App] leaves, by the section of the state. *)
Definition app_shown (t : NavTarget) (v : AppView) (st : AppState) : Prop :=
  activeSection st = section_key t /\
  match t with
  | NavDashboard =>
      map active (nav v) = [true; false; false] /\
      exists dv w, mainSections v = [SectionDashboard dv] /\
                   dashboardState st = Some w /\ world_ok w /\ shows dv w
  | NavAbout =>
      map active (nav v) = [false; true; false] /\
      mainSections v = [SectionAbout] /\ dashboardState st = None
  | NavResources =>
      map active (nav v) = [false; false; true] /\
      mainSections v = [SectionResources] /\ dashboardState st = None
  end.

(** * Properties of the Number model *)

Section ModelCheck.
Local Open Scope string_scope.

(** ** The Number model against the Standard Library's binary64 *)

(** On every region and every year of the slider the four scaled values
    are those of the [SpecFloat] computation. *)
Lemma agree_slider_years :
  forallb Binary64.agree (Binary64.years 2023 28) = true.
Proof. vm_compute. reflexivity. Qed.

(** So are they far outside the slider: negative and exact results,
    inexact integers above 2^53, magnitudes above 10^21 and overflow. *)
Lemma agree_other_years :
  forallb Binary64.agree
    [0; -1; 1900; 2022; 2051; 2100; 9007199254740993; - (2 ^ 64 + 12345);
     10 ^ 21; 10 ^ 22; - 10 ^ 22; 10 ^ 300; 2 ^ 1023; - 2 ^ 1023]%Z = true.
Proof. vm_compute. reflexivity. Qed.

Lemma agree_historical_series : Binary64.agree_series = true.
Proof. vm_compute. reflexivity. Qed.

End ModelCheck.

(** ** Powers of two and the binary logarithm *)

Section PowersOfTwo.
Local Open Scope Q_scope.

Lemma pow2_pos (z : Z) : 0 < pow2 z.
Proof. apply Qpower_0_lt. reflexivity. Qed.

Lemma pow2_add (a b : Z) : pow2 (a + b) == pow2 a * pow2 b.
Proof. apply Qpower_plus. discriminate. Qed.

Lemma pow2_le (a b : Z) : (a <= b)%Z -> pow2 a <= pow2 b.
Proof. intro H. apply Qpower_le_compat_l; [exact H | discriminate]. Qed.

Lemma pow2_lt (a b : Z) : (a < b)%Z -> pow2 a < pow2 b.
Proof. intro H. apply Qpower_lt_compat_l; [exact H | reflexivity]. Qed.

Lemma pow2_lt_inv (a b : Z) : pow2 a < pow2 b -> (a < b)%Z.
Proof. intro H. apply (Qpower_lt_compat_l_inv 2); [exact H | reflexivity]. Qed.

Lemma pow2_Z (z : Z) : (0 <= z)%Z -> pow2 z == inject_Z (2 ^ z).
Proof. intro H. unfold pow2. rewrite Zpower_Qpower by exact H. reflexivity. Qed.

Lemma pow2_sub (a b : Z) : pow2 (a - b) * pow2 b == pow2 a.
Proof. rewrite <- pow2_add. replace (a - b + b)%Z with a by ring. reflexivity. Qed.

Lemma floor_log2_spec (a : Q) :
  0 < a -> pow2 (floor_log2 a) <= a /\ a < pow2 (floor_log2 a + 1).
Proof.
  intro Ha. unfold floor_log2.
  destruct a as [n d]. simpl Qnum. simpl Qden.
  assert (Hn : (0 < n)%Z).
  { unfold Qlt in Ha. simpl in Ha. lia. }
  set (ln := Z.log2 n). set (ld := Z.log2 (Zpos d)).
  assert (Hln : (2 ^ ln <= n < 2 ^ (ln + 1))%Z).
  { unfold ln. rewrite Z.add_1_r. apply Z.log2_spec. exact Hn. }
  assert (Hld : (2 ^ ld <= Zpos d < 2 ^ (ld + 1))%Z).
  { unfold ld. rewrite Z.add_1_r. apply Z.log2_spec. lia. }
  assert (Hln0 : (0 <= ln)%Z) by apply Z.log2_nonneg.
  assert (Hld0 : (0 <= ld)%Z) by apply Z.log2_nonneg.
  assert (Ea : (n # d) * inject_Z (Zpos d) == inject_Z n).
  { unfold Qeq, Qmult, inject_Z. simpl. rewrite Pos.mul_1_r. ring. }
  assert (Hd : 0 < inject_Z (Zpos d)) by reflexivity.
  (* bounds in Q *)
  assert (B1 : inject_Z (2 ^ ln) <= inject_Z n) by (rewrite <- Zle_Qle; lia).
  assert (B2 : inject_Z n < inject_Z (2 ^ (ln + 1))) by (rewrite <- Zlt_Qlt; lia).
  assert (B3 : inject_Z (2 ^ ld) <= inject_Z (Zpos d)) by (rewrite <- Zle_Qle; lia).
  assert (B4 : inject_Z (Zpos d) < inject_Z (2 ^ (ld + 1))) by (rewrite <- Zlt_Qlt; lia).
  rewrite <- pow2_Z in B1, B2, B3, B4 by lia.
  assert (Lo : pow2 (ln - ld - 1) < n # d).
  { apply (Qmult_lt_r _ _ (pow2 (ld + 1))); [apply pow2_pos|].
    rewrite <- pow2_add. replace (ln - ld - 1 + (ld + 1))%Z with ln by ring.
    apply Qle_lt_trans with (inject_Z n); [exact B1|].
    rewrite <- Ea. apply Qmult_lt_l; [exact Ha | exact B4]. }
  assert (Hi : n # d < pow2 (ln - ld + 1)).
  { apply (Qmult_lt_r _ _ (pow2 ld)); [apply pow2_pos|].
    rewrite <- pow2_add. replace (ln - ld + 1 + ld)%Z with (ln + 1)%Z by ring.
    apply Qle_lt_trans with (inject_Z n); [|exact B2].
    rewrite <- Ea. apply Qmult_le_l; [exact Ha | exact B3]. }
  destruct (Qle_bool (pow2 (ln - ld)) (n # d)) eqn:E.
  - apply Qle_bool_iff in E. split; [exact E | exact Hi].
  - split; [apply Qlt_le_weak; exact Lo|].
    replace (ln - ld - 1 + 1)%Z with (ln - ld)%Z by ring.
    apply Qnot_le_lt. intro C. apply Qle_bool_iff in C. congruence.
Qed.

End PowersOfTwo.

(** ** Rounding to the nearest integer, ties to even *)

Section Rounding.
Local Open Scope Q_scope.

Lemma rhe_bounds (x : Q) :
  (Qfloor x <= round_half_even x <= Qfloor x + 1)%Z.
Proof.
  unfold round_half_even.
  destruct (Qcompare (x - inject_Z (Qfloor x)) (1 # 2));
    try destruct (Z.even (Qfloor x)); lia.
Qed.

Lemma rhe_mono (x y : Q) :
  x <= y -> (round_half_even x <= round_half_even y)%Z.
Proof.
  intro H. pose proof (Qfloor_resp_le _ _ H) as Hf.
  destruct (Z.eq_dec (Qfloor x) (Qfloor y)) as [E|N].
  - unfold round_half_even. rewrite <- E.
    destruct (Qcompare_spec (x - inject_Z (Qfloor x)) (1 # 2)) as [Hx|Hx|Hx];
    destruct (Qcompare_spec (y - inject_Z (Qfloor x)) (1 # 2)) as [Hy|Hy|Hy];
      try destruct (Z.even (Qfloor x)); try lia; exfalso; lra.
  - pose proof (rhe_bounds x). pose proof (rhe_bounds y). lia.
Qed.

Lemma rhe_comp (x y : Q) : x == y -> round_half_even x = round_half_even y.
Proof.
  intro H. apply Z.le_antisymm; apply rhe_mono; rewrite H; apply Qle_refl.
Qed.

Lemma rhe_Z (z : Z) : round_half_even (inject_Z z) = z.
Proof.
  unfold round_half_even. rewrite Qfloor_Z.
  destruct (Qcompare_spec (inject_Z z - inject_Z z) (1 # 2)) as [H|H|H];
    try reflexivity; exfalso; lra.
Qed.

Lemma rhe_ge (z : Z) (x : Q) : inject_Z z <= x -> (z <= round_half_even x)%Z.
Proof. intro H. rewrite <- (rhe_Z z). apply rhe_mono. exact H. Qed.

Lemma rhe_le (z : Z) (x : Q) : x <= inject_Z z -> (round_half_even x <= z)%Z.
Proof. intro H. rewrite <- (rhe_Z z). apply rhe_mono. exact H. Qed.

(** ** The nearest representable magnitude *)

Lemma ulp_exp_mono (a b : Q) : 0 < a -> a <= b -> (ulp_exp a <= ulp_exp b)%Z.
Proof.
  intros Ha Hab. unfold ulp_exp.
  assert (floor_log2 a <= floor_log2 b)%Z; [|lia].
  destruct (floor_log2_spec a Ha) as [La _].
  destruct (floor_log2_spec b (Qlt_le_trans _ _ _ Ha Hab)) as [_ Ub].
  assert (pow2 (floor_log2 a) < pow2 (floor_log2 b + 1)) as H.
  { eapply Qle_lt_trans; [exact La|]. eapply Qle_lt_trans; [exact Hab | exact Ub]. }
  apply pow2_lt_inv in H. lia.
Qed.

Lemma nearest_nonneg (a : Q) : 0 <= a -> 0 <= nearest a.
Proof.
  intro Ha. unfold nearest.
  apply Qmult_le_0_compat; [|apply Qlt_le_weak, pow2_pos].
  change 0 with (inject_Z 0). rewrite <- Zle_Qle. apply rhe_ge.
  apply Qle_shift_div_l; [apply pow2_pos|].
  change (inject_Z 0) with 0. rewrite Qmult_0_l. exact Ha.
Qed.

(** Scaling by the unit in the last place. *)
Lemma scaled_le (a : Q) (q m : Z) :
  a <= pow2 m -> (q <= m)%Z -> a / pow2 q <= inject_Z (2 ^ (m - q)).
Proof.
  intros H Hq. rewrite <- pow2_Z by lia.
  apply Qle_shift_div_r; [apply pow2_pos|]. rewrite pow2_sub. exact H.
Qed.

Lemma scaled_ge (a : Q) (q m : Z) :
  pow2 m <= a -> (q <= m)%Z -> inject_Z (2 ^ (m - q)) <= a / pow2 q.
Proof.
  intros H Hq. rewrite <- pow2_Z by lia.
  apply Qle_shift_div_l; [apply pow2_pos|]. rewrite pow2_sub. exact H.
Qed.

Lemma nearest_upper (a : Q) (m : Z) :
  a <= pow2 m -> (ulp_exp a <= m)%Z -> nearest a <= pow2 m.
Proof.
  intros H Hq. unfold nearest.
  rewrite <- (pow2_sub m (ulp_exp a)).
  apply Qmult_le_compat_r; [|apply Qlt_le_weak, pow2_pos].
  rewrite (pow2_Z (m - ulp_exp a)) by lia. rewrite <- Zle_Qle. apply rhe_le.
  apply scaled_le; assumption.
Qed.

Lemma nearest_lower (a : Q) (m : Z) :
  pow2 m <= a -> (ulp_exp a <= m)%Z -> pow2 m <= nearest a.
Proof.
  intros H Hq. unfold nearest.
  rewrite <- (pow2_sub m (ulp_exp a)).
  apply Qmult_le_compat_r; [|apply Qlt_le_weak, pow2_pos].
  rewrite (pow2_Z (m - ulp_exp a)) by lia. rewrite <- Zle_Qle. apply rhe_ge.
  apply scaled_ge; assumption.
Qed.

Lemma nearest_mono (a b : Q) : 0 < a -> a <= b -> nearest a <= nearest b.
Proof.
  intros Ha Hab.
  assert (Hb : 0 < b) by (eapply Qlt_le_trans; eassumption).
  pose proof (ulp_exp_mono a b Ha Hab) as Hq.
  destruct (Z.eq_dec (ulp_exp a) (ulp_exp b)) as [E|N].
  - unfold nearest. rewrite E.
    apply Qmult_le_compat_r; [|apply Qlt_le_weak, pow2_pos].
    rewrite <- Zle_Qle. apply rhe_mono.
    apply Qmult_le_compat_r; [exact Hab|].
    apply Qlt_le_weak, Qinv_lt_0_compat, pow2_pos.
  - destruct (floor_log2_spec a Ha) as [_ Ua].
    destruct (floor_log2_spec b Hb) as [Lb _].
    assert (Hqb : ulp_exp b = (floor_log2 b - 52)%Z) by (unfold ulp_exp in *; lia).
    assert (Hqa : (ulp_exp a < floor_log2 b - 52)%Z) by lia.
    assert (Hea : (floor_log2 a - 52 <= ulp_exp a)%Z) by (unfold ulp_exp; lia).
    set (m := Z.max (floor_log2 a + 1) (ulp_exp a)).
    apply Qle_trans with (pow2 m).
    + apply nearest_upper; [|unfold m; lia].
      apply Qle_trans with (pow2 (floor_log2 a + 1)); [apply Qlt_le_weak; exact Ua|].
      apply pow2_le. unfold m. lia.
    + apply Qle_trans with (pow2 (floor_log2 b)); [apply pow2_le; unfold m; lia|].
      apply nearest_lower; [exact Lb | lia].
Qed.

End Rounding.

(** ** Rounded magnitudes *)

Section RoundedMagnitudes.
Local Open Scope Q_scope.

Lemma Some_inj {A : Type} (x y : A) : Some x = Some y -> x = y.
Proof. congruence. Qed.

Lemma Qnum_pos (a : Q) : 0 < a <-> exists p, Qnum a = Zpos p.
Proof.
  destruct a as [n d]. unfold Qlt. simpl. split.
  - intro H. destruct n as [|p|p]; try lia. now exists p.
  - intros [p ->]. lia.
Qed.

Lemma round_mag_pos (a : Q) :
  0 < a ->
  round_mag a = if Qle_bool (pow2 1024) (nearest a) then None else Some (Qred (nearest a)).
Proof. intro H. apply Qnum_pos in H. destruct H as [p Hp]. unfold round_mag. now rewrite Hp. Qed.

Lemma round_mag_nonpos (a : Q) : a <= 0 -> round_mag a = Some 0.
Proof.
  destruct a as [n d]. unfold Qle, round_mag. simpl. intro H.
  destruct n; try reflexivity. lia.
Qed.

Lemma round_mag_nonneg (a m : Q) : round_mag a = Some m -> 0 <= m.
Proof.
  destruct (Qlt_le_dec 0 a) as [H|H].
  - rewrite (round_mag_pos a H).
    destruct (Qle_bool (pow2 1024) (nearest a)); [discriminate|].
    intro E. apply Some_inj in E. subst m. rewrite Qred_correct.
    apply nearest_nonneg. apply Qlt_le_weak. exact H.
  - rewrite (round_mag_nonpos a H). intro E. apply Some_inj in E. subst m. apply Qle_refl.
Qed.

Lemma round_mag_mono (a b : Q) : a <= b -> mag_le (round_mag a) (round_mag b).
Proof.
  intro Hab. destruct (Qlt_le_dec 0 a) as [Ha|Ha].
  - assert (Hb : 0 < b) by (eapply Qlt_le_trans; eassumption).
    rewrite (round_mag_pos a Ha), (round_mag_pos b Hb).
    pose proof (nearest_mono a b Ha Hab) as Hn.
    destruct (Qle_bool (pow2 1024) (nearest a)) eqn:Ea;
    destruct (Qle_bool (pow2 1024) (nearest b)) eqn:Eb; cbn [mag_le val Value_le signed wf]; trivial.
    + apply Qle_bool_iff in Ea.
      assert (Qle_bool (pow2 1024) (nearest b) = true) as C.
      { apply Qle_bool_iff. eapply Qle_trans; eassumption. }
      congruence.
    + rewrite !Qred_correct. exact Hn.
  - rewrite (round_mag_nonpos a Ha).
    destruct (round_mag b) as [m|] eqn:E; cbn [mag_le val Value_le signed wf]; trivial.
    apply (round_mag_nonneg b m E).
Qed.

Lemma round_mag_comp (a b : Q) : a == b -> round_mag a = round_mag b.
Proof.
  intro H.
  assert (L1 : a <= b) by (rewrite H; apply Qle_refl).
  assert (L2 : b <= a) by (rewrite H; apply Qle_refl).
  pose proof (round_mag_mono a b L1) as M1.
  pose proof (round_mag_mono b a L2) as M2.
  destruct (Qlt_le_dec 0 a) as [Ha|Ha].
  - assert (Hb : 0 < b) by (rewrite <- H; exact Ha).
    rewrite (round_mag_pos a Ha), (round_mag_pos b Hb) in *.
    destruct (Qle_bool (pow2 1024) (nearest a)), (Qle_bool (pow2 1024) (nearest b));
      cbn [mag_le val Value_le signed] in *; try reflexivity; try contradiction.
    f_equal. apply Qred_complete. rewrite !Qred_correct in M1, M2.
    apply Qle_antisym; assumption.
  - assert (Hb : b <= 0) by (rewrite <- H; exact Ha).
    now rewrite (round_mag_nonpos a Ha), (round_mag_nonpos b Hb).
Qed.

Lemma round_signed_wf (s : bool) (a : Q) : wf (round_signed s a).
Proof.
  unfold round_signed. destruct (round_mag a) as [m|] eqn:E; cbn [mag_le val Value_le signed wf]; trivial.
  apply (round_mag_nonneg a m E).
Qed.

Lemma round_signed_mono (s t : bool) (a b : Q) :
  0 <= a -> 0 <= b -> signed s a <= signed t b ->
  num_le (round_signed s a) (round_signed t b).
Proof.
  intros Ha Hb H.
  split; [apply round_signed_wf|]. split; [apply round_signed_wf|].
  unfold round_signed.
  destruct s, t; cbn [signed] in H.
  - assert (Hba : b <= a) by lra.
    pose proof (round_mag_mono b a Hba) as M.
    destruct (round_mag a) as [x|], (round_mag b) as [y|]; cbn [mag_le val Value_le signed] in *; trivial; try lra.
  - destruct (round_mag a) as [x|] eqn:Ex, (round_mag b) as [y|] eqn:Ey; cbn [mag_le val Value_le signed wf]; trivial.
    apply round_mag_nonneg in Ex, Ey. lra.
  - assert (Ha0 : a <= 0) by lra. assert (Hb0 : b <= 0) by lra.
    rewrite (round_mag_nonpos a Ha0), (round_mag_nonpos b Hb0). cbn [mag_le val Value_le signed wf]. lra.
  - pose proof (round_mag_mono a b H) as M.
    destruct (round_mag a) as [x|], (round_mag b) as [y|]; cbn [mag_le val Value_le signed] in *; trivial.
Qed.

End RoundedMagnitudes.

Section Monotonicity.
Local Open Scope Q_scope.

(** ** Monotonicity of the Number operations *)

Lemma num_le_refl (x : Number) : wf x -> x <> NaN -> num_le x x.
Proof.
  intros W N. split; [exact W|]. split; [exact W|].
  destruct x as [|s|s m]; [congruence|destruct s; exact I|].
  cbn [val Value_le]. apply Qle_refl.
Qed.

Lemma num_le_trans (x y z : Number) : num_le x y -> num_le y z -> num_le x z.
Proof.
  intros (Wx & Wy & H1) (_ & Wz & H2). split; [exact Wx|]. split; [exact Wz|].
  destruct x as [|[|]|s a], y as [|[|]|t b], z as [|[|]|u c];
    cbn [val Value_le] in *; trivial; try contradiction.
  eapply Qle_trans; eassumption.
Qed.

Lemma is_zero_false (n : Q) : 0 < n -> is_zero n = false.
Proof.
  intro H. unfold is_zero. destruct (Qeq_bool n 0) eqn:E; [|reflexivity].
  apply Qeq_bool_iff in E. rewrite E in H. discriminate H.
Qed.

Lemma is_positive_inv (c : Number) :
  is_positive c = true -> exists n, c = Finite false n /\ 0 < n.
Proof.
  destruct c as [|s|[|] n]; simpl; try discriminate. intro H.
  exists n. split; [reflexivity|].
  apply Qnot_le_lt. intro C. apply Qle_bool_iff in C. rewrite C in H. discriminate H.
Qed.

(** A rounded sign and magnitude against an infinity. *)
Lemma round_signed_val (s : bool) (a : Q) : val (round_signed s a) <> None.
Proof. unfold round_signed. destruct (round_mag a); discriminate. Qed.

Lemma num_le_from_neg_infinity (z : Number) :
  wf z -> val z <> None -> num_le (Infinity true) z.
Proof.
  intros W N. split; [exact I|]. split; [exact W|].
  cbn [val]. destruct (val z); [exact I | congruence].
Qed.

Lemma num_le_to_infinity (z : Number) :
  wf z -> val z <> None -> num_le z (Infinity false).
Proof.
  intros W N. split; [exact W|]. split; [exact I|].
  cbn [val]. destruct (val z) as [[[|]|q]|]; try exact I. congruence.
Qed.

Lemma multiply_mono (c x y : Number) :
  is_positive c = true -> num_le x y -> num_le (multiply x c) (multiply y c).
Proof.
  intros Hc H. destruct (is_positive_inv c Hc) as (n & -> & Hn).
  pose proof (is_zero_false n Hn) as Z.
  destruct H as (Wx & Wy & H).
  destruct x as [|s|s a], y as [|t|t b]; cbn [val] in H; try contradiction;
    cbn [multiply]; rewrite ?Z, ?xorb_false_r.
  - destruct s, t; cbn [Value_le] in H; try contradiction;
      repeat split; exact I.
  - destruct s; cbn [Value_le] in H; try contradiction.
    apply num_le_from_neg_infinity; [apply round_signed_wf | apply round_signed_val].
  - destruct t; cbn [Value_le] in H; try contradiction.
    apply num_le_to_infinity; [apply round_signed_wf | apply round_signed_val].
  - cbn [Value_le wf] in *. apply round_signed_mono.
    + apply Qmult_le_0_compat; [exact Wx | apply Qlt_le_weak; exact Hn].
    + apply Qmult_le_0_compat; [exact Wy | apply Qlt_le_weak; exact Hn].
    + destruct s, t; cbn [signed] in *; nra.
Qed.

Lemma divide_mono (c x y : Number) :
  is_positive c = true -> num_le x y -> num_le (divide x c) (divide y c).
Proof.
  intros Hc H. destruct (is_positive_inv c Hc) as (n & -> & Hn).
  pose proof (is_zero_false n Hn) as Z.
  assert (Hi : 0 < / n) by (apply Qinv_lt_0_compat; exact Hn).
  destruct H as (Wx & Wy & H).
  destruct x as [|s|s a], y as [|t|t b]; cbn [val] in H; try contradiction;
    cbn [divide]; rewrite ?Z, ?xorb_false_r.
  - destruct s, t; cbn [Value_le] in H; try contradiction;
      repeat split; exact I.
  - destruct s; cbn [Value_le] in H; try contradiction.
    apply num_le_from_neg_infinity; [apply round_signed_wf | apply round_signed_val].
  - destruct t; cbn [Value_le] in H; try contradiction.
    apply num_le_to_infinity; [apply round_signed_wf | apply round_signed_val].
  - cbn [Value_le wf] in *. unfold Qdiv. apply round_signed_mono.
    + apply Qmult_le_0_compat; [exact Wx | apply Qlt_le_weak; exact Hi].
    + apply Qmult_le_0_compat; [exact Wy | apply Qlt_le_weak; exact Hi].
    + destruct s, t; cbn [signed] in *; nra.
Qed.

Lemma add_exact_round (z : bool) (v : Q) :
  exists s, add_exact z v = round_signed s (Qabs v) /\ signed s (Qabs v) == v.
Proof.
  unfold add_exact. destruct (Qeq_bool v 0) eqn:E.
  - apply Qeq_bool_iff in E. exists z. split.
    + unfold round_signed. rewrite (round_mag_nonpos (Qabs v)); [reflexivity|].
      rewrite (Qabs_wd _ _ E). discriminate.
    + destruct z; cbn [signed]; rewrite (Qabs_wd _ _ E), E; reflexivity.
  - exists (Qle_bool v 0). split; [reflexivity|].
    destruct (Qle_bool v 0) eqn:L; cbn [signed].
    + apply Qle_bool_iff in L. rewrite (Qabs_neg v L). ring.
    + apply Qabs_pos. apply Qlt_le_weak, Qnot_le_lt. intro C.
      apply Qle_bool_iff in C. congruence.
Qed.

Lemma add_exact_mono (z z' : bool) (v v' : Q) :
  v <= v' -> num_le (add_exact z v) (add_exact z' v').
Proof.
  intro H.
  destruct (add_exact_round z v) as (s & -> & Es).
  destruct (add_exact_round z' v') as (s' & -> & Es').
  apply round_signed_mono; try apply Qabs_nonneg.
  rewrite Es, Es'. exact H.
Qed.

Lemma add_finite (s t : bool) (m n : Q) :
  add (Finite s m) (Finite t n) = add_exact (s && t) (signed s m + signed t n).
Proof. reflexivity. Qed.

Lemma add_exact_wf (z : bool) (v : Q) : wf (add_exact z v).
Proof. destruct (add_exact_round z v) as (s & -> & _). apply round_signed_wf. Qed.

Lemma add_exact_val (z : bool) (v : Q) : val (add_exact z v) <> None.
Proof. destruct (add_exact_round z v) as (s & -> & _). apply round_signed_val. Qed.

(** [c + x] is monotone in [x] for a finite [c]. *)
Lemma add_mono_r (t : bool) (n : Q) (x y : Number) :
  num_le x y -> num_le (add (Finite t n) x) (add (Finite t n) y).
Proof.
  intros (Wx & Wy & H).
  destruct x as [|s|s a], y as [|u|u b]; cbn [val] in H; try contradiction.
  - cbn [add]. destruct s, u; cbn [Value_le] in H; try contradiction;
      repeat split; exact I.
  - rewrite add_finite. cbn [add].
    destruct s; cbn [Value_le] in H; try contradiction.
    apply num_le_from_neg_infinity; [apply add_exact_wf | apply add_exact_val].
  - rewrite add_finite. cbn [add].
    destruct u; cbn [Value_le] in H; try contradiction.
    apply num_le_to_infinity; [apply add_exact_wf | apply add_exact_val].
  - rewrite !add_finite. apply add_exact_mono. cbn [Value_le] in H. lra.
Qed.

(** [x + c] is monotone in [x] for a finite [c]. *)
Lemma add_mono_l (t : bool) (n : Q) (x y : Number) :
  num_le x y -> num_le (add x (Finite t n)) (add y (Finite t n)).
Proof.
  intros (Wx & Wy & H).
  destruct x as [|s|s a], y as [|u|u b]; cbn [val] in H; try contradiction.
  - cbn [add]. destruct s, u; cbn [Value_le] in H; try contradiction;
      repeat split; exact I.
  - rewrite add_finite. cbn [add].
    destruct s; cbn [Value_le] in H; try contradiction.
    apply num_le_from_neg_infinity; [apply add_exact_wf | apply add_exact_val].
  - rewrite add_finite. cbn [add].
    destruct u; cbn [Value_le] in H; try contradiction.
    apply num_le_to_infinity; [apply add_exact_wf | apply add_exact_val].
  - rewrite !add_finite. apply add_exact_mono. cbn [Value_le] in H. lra.
Qed.

Lemma subtract_mono_l (t : bool) (n : Q) (x y : Number) :
  num_le x y -> num_le (subtract x (Finite t n)) (subtract y (Finite t n)).
Proof. unfold subtract. cbn [unaryMinus]. apply add_mono_l. Qed.

(** The Number value of a rational is monotone. *)
Lemma of_Q_round (x : Q) :
  exists s, of_Q x = round_signed s (Qabs x) /\ signed s (Qabs x) == x.
Proof.
  unfold of_Q. eexists. split; [reflexivity|].
  destruct (Qle_bool x 0) eqn:L; cbn [andb].
  - apply Qle_bool_iff in L. destruct (Qeq_bool x 0) eqn:E; cbn [negb signed].
    + apply Qeq_bool_iff in E. rewrite E. reflexivity.
    + rewrite (Qabs_neg x L). ring.
  - cbn [signed]. apply Qabs_pos. apply Qlt_le_weak, Qnot_le_lt. intro C.
    apply Qle_bool_iff in C. congruence.
Qed.

Lemma of_Q_mono (x y : Q) : x <= y -> num_le (of_Q x) (of_Q y).
Proof.
  intro H.
  destruct (of_Q_round x) as (s & -> & Es).
  destruct (of_Q_round y) as (s' & -> & Es').
  apply round_signed_mono; try apply Qabs_nonneg.
  rewrite Es, Es'. exact H.
Qed.

Lemma of_Z_mono (x y : Z) : (x <= y)%Z -> num_le (of_Z x) (of_Z y).
Proof. intro H. apply of_Q_mono. rewrite <- Zle_Qle. exact H. Qed.

End Monotonicity.

Section Representable.
Local Open Scope Q_scope.

(** ** Representable magnitudes *)

Lemma floor_log2_unique (a : Q) (e : Z) :
  pow2 e <= a -> a < pow2 (e + 1) -> floor_log2 a = e.
Proof.
  intros L U.
  assert (Ha : 0 < a) by (eapply Qlt_le_trans; [apply (pow2_pos e) | exact L]).
  destruct (floor_log2_spec a Ha) as [L' U'].
  assert (H1 : pow2 e < pow2 (floor_log2 a + 1)) by (eapply Qle_lt_trans; eassumption).
  assert (H2 : pow2 (floor_log2 a) < pow2 (e + 1)) by (eapply Qle_lt_trans; eassumption).
  apply pow2_lt_inv in H1, H2. lia.
Qed.

(** The integer significand of the nearest value has at most 53 bits, and
    at least 53 unless the exponent is the least one. *)
Lemma significand_bounds (a : Q) :
  0 < a ->
  let k := round_half_even (a / pow2 (ulp_exp a)) in
  (0 <= k <= 2 ^ 53)%Z /\ (2 ^ 52 <= k \/ ulp_exp a = -1074)%Z.
Proof.
  intros Ha k. destruct (floor_log2_spec a Ha) as [L U].
  assert (Hq : (floor_log2 a - 52 <= ulp_exp a)%Z) by (unfold ulp_exp; lia).
  assert (Hk0 : (0 <= k)%Z).
  { apply rhe_ge. apply Qle_shift_div_l; [apply pow2_pos|].
    change (inject_Z 0) with 0. rewrite Qmult_0_l. apply Qlt_le_weak. exact Ha. }
  assert (Hk1 : (k <= 2 ^ 53)%Z).
  { apply rhe_le.
    apply Qle_trans with (inject_Z (2 ^ (ulp_exp a + 53 - ulp_exp a))).
    - apply scaled_le; [|lia].
      apply Qle_trans with (pow2 (floor_log2 a + 1)); [apply Qlt_le_weak; exact U|].
      apply pow2_le. lia.
    - replace (ulp_exp a + 53 - ulp_exp a)%Z with 53%Z by ring. apply Qle_refl. }
  split; [split; assumption|].
  destruct (Z.eq_dec (ulp_exp a) (-1074)) as [E|N]; [right; exact E|left].
  assert (Hq' : ulp_exp a = (floor_log2 a - 52)%Z) by (unfold ulp_exp in *; lia).
  apply rhe_ge.
  replace 52%Z with (floor_log2 a - ulp_exp a)%Z by lia.
  apply scaled_ge; [exact L | lia].
Qed.

(** A magnitude [k * 2^q] in this form rounds to itself. *)
Lemma nearest_exact (k q : Z) :
  (0 < k <= 2 ^ 53)%Z -> (-1074 <= q)%Z -> (2 ^ 52 <= k \/ q = -1074)%Z ->
  nearest (inject_Z k * pow2 q) == inject_Z k * pow2 q.
Proof.
  intros Hk Hq Hn. set (r := inject_Z k * pow2 q).
  assert (Hr : 0 < r).
  { unfold r. apply Qmult_lt_0_compat; [|apply pow2_pos].
    change 0 with (inject_Z 0). rewrite <- Zlt_Qlt. lia. }
  (* the exponent of the unit in the last place of [r], and the integer
     significand there *)
  assert (S : exists q' k', ulp_exp r = q' /\ r == inject_Z k' * pow2 q').
  { destruct (Z.eq_dec k (2 ^ 53)) as [E|N].
    - exists (q + 1)%Z, (2 ^ 52)%Z.
      assert (Er : r == pow2 (q + 53)).
      { unfold r. rewrite E, <- (pow2_Z 53) by lia. rewrite <- pow2_add.
        replace (53 + q)%Z with (q + 53)%Z by ring. reflexivity. }
      split.
      + unfold ulp_exp. rewrite (floor_log2_unique r (q + 53)).
        * lia.
        * rewrite Er. apply Qle_refl.
        * rewrite Er. apply pow2_lt. lia.
      + rewrite Er, <- (pow2_Z 52) by lia. rewrite <- pow2_add.
        replace (52 + (q + 1))%Z with (q + 53)%Z by ring. reflexivity.
    - exists q, k. split; [|reflexivity].
      destruct (Z_lt_le_dec k (2 ^ 52)) as [Hs|Hl].
      + (* least exponent *)
        assert (q = (-1074)%Z) by lia. subst q.
        assert (Ur : r < pow2 (-1074 + 52)).
        { unfold r. rewrite pow2_add, (Qmult_comm (pow2 (-1074))).
          apply Qmult_lt_compat_r; [apply pow2_pos|].
          rewrite (pow2_Z 52) by lia. rewrite <- Zlt_Qlt. exact Hs. }
        destruct (floor_log2_spec r Hr) as [L _].
        assert (H : pow2 (floor_log2 r) < pow2 (-1074 + 52))
          by (eapply Qle_lt_trans; eassumption).
        apply pow2_lt_inv in H. unfold ulp_exp. lia.
      + unfold ulp_exp. rewrite (floor_log2_unique r (q + 52)).
        * lia.
        * unfold r. rewrite Z.add_comm, pow2_add.
          apply Qmult_le_compat_r; [|apply Qlt_le_weak, pow2_pos].
          rewrite (pow2_Z 52) by lia. rewrite <- Zle_Qle. exact Hl.
        * unfold r. replace (q + 52 + 1)%Z with (53 + q)%Z by ring.
          rewrite pow2_add. apply Qmult_lt_compat_r; [apply pow2_pos|].
          rewrite (pow2_Z 53) by lia. rewrite <- Zlt_Qlt. lia. }
  destruct S as (q' & k' & Eq & Er).
  unfold nearest. rewrite Eq.
  rewrite (rhe_comp (r / pow2 q') (inject_Z k')).
  - rewrite rhe_Z. symmetry. exact Er.
  - rewrite Er. field. apply Qnot_eq_sym, Qlt_not_eq, pow2_pos.
Qed.

Lemma nearest_form (a : Q) :
  0 < a ->
  exists k q, nearest a == inject_Z k * pow2 q /\
              (0 <= k <= 2 ^ 53)%Z /\ (-1074 <= q)%Z /\ (2 ^ 52 <= k \/ q = -1074)%Z.
Proof.
  intro Ha. destruct (significand_bounds a Ha) as [B N].
  exists (round_half_even (a / pow2 (ulp_exp a))), (ulp_exp a).
  split; [reflexivity|]. split; [exact B|]. split; [unfold ulp_exp; lia | exact N].
Qed.

(** Rounding is idempotent. *)
Lemma round_mag_idem (a m : Q) : round_mag a = Some m -> round_mag m = Some m.
Proof.
  destruct (Qlt_le_dec 0 a) as [Ha|Ha].
  - rewrite (round_mag_pos a Ha).
    destruct (Qle_bool (pow2 1024) (nearest a)) eqn:O; [discriminate|].
    intro E. apply Some_inj in E. subst m.
    destruct (nearest_form a Ha) as (k & q & En & Hk & Hq & Hn).
    destruct (Z.eq_dec k 0) as [K0|K0].
    + assert (Z0 : nearest a == 0) by (rewrite En, K0; ring).
      rewrite (round_mag_comp (Qred (nearest a)) 0).
      * rewrite (Qred_complete _ _ Z0). reflexivity.
      * rewrite Qred_correct. exact Z0.
    + assert (Hk' : (0 < k <= 2 ^ 53)%Z) by lia.
      pose proof (nearest_exact k q Hk' Hq Hn) as Ex.
      assert (Hp : 0 < nearest a).
      { rewrite En. apply Qmult_lt_0_compat; [|apply pow2_pos].
        change 0 with (inject_Z 0). rewrite <- Zlt_Qlt. lia. }
      rewrite (round_mag_comp (Qred (nearest a)) (nearest a)) by apply Qred_correct.
      rewrite (round_mag_pos _ Hp).
      assert (En2 : nearest (nearest a) == nearest a).
      { unfold nearest at 1.
        assert (Eu : ulp_exp (nearest a) = ulp_exp (inject_Z k * pow2 q)).
        { unfold ulp_exp. f_equal. f_equal.
          destruct (floor_log2_spec _ Hp) as [L U].
          symmetry. apply floor_log2_unique; rewrite <- En; assumption. }
        rewrite Eu.
        rewrite (rhe_comp _ (inject_Z k * pow2 q / pow2 (ulp_exp (inject_Z k * pow2 q)))).
        - fold (nearest (inject_Z k * pow2 q)). rewrite Ex. symmetry. exact En.
        - rewrite En. reflexivity. }
      assert (O2 : Qle_bool (pow2 1024) (nearest (nearest a)) = false).
      { destruct (Qle_bool (pow2 1024) (nearest (nearest a))) eqn:O'; [|reflexivity].
        apply Qle_bool_iff in O'. rewrite En2 in O'. apply Qle_bool_iff in O'. congruence. }
      rewrite O2. f_equal. apply Qred_complete. exact En2.
  - rewrite (round_mag_nonpos a Ha). intro E. apply Some_inj in E. subst m. reflexivity.
Qed.

(** A representable magnitude of at least 2^53 is an integer. *)
Lemma round_mag_integer (a m : Q) :
  round_mag a = Some m -> pow2 53 <= m -> inject_Z (Qfloor m) == m.
Proof.
  intros E Hm.
  destruct (Qlt_le_dec 0 a) as [Ha|Ha].
  - rewrite (round_mag_pos a Ha) in E.
    destruct (Qle_bool (pow2 1024) (nearest a)); [discriminate|].
    apply Some_inj in E. subst m. rewrite Qred_correct in Hm.
    destruct (nearest_form a Ha) as (k & q & En & Hk & Hq & Hn).
    assert (Q0 : (0 <= q)%Z).
    { destruct (Z_lt_le_dec q 0) as [C|C]; [exfalso|exact C].
      assert (nearest a < pow2 53); [|lra].
      rewrite En. apply Qle_lt_trans with (inject_Z (2 ^ 53) * pow2 q).
      - apply Qmult_le_compat_r; [|apply Qlt_le_weak, pow2_pos].
        rewrite <- Zle_Qle. lia.
      - rewrite <- (pow2_Z 53), <- pow2_add by lia. apply pow2_lt. lia. }
    assert (Ei : nearest a == inject_Z (k * 2 ^ q)).
    { rewrite En, (pow2_Z q Q0), inject_Z_mult. reflexivity. }
    assert (Ei' : Qred (nearest a) == inject_Z (k * 2 ^ q))
      by (rewrite Qred_correct; exact Ei).
    rewrite (Qfloor_comp _ _ Ei'), Qfloor_Z. symmetry. exact Ei'.
  - rewrite (round_mag_nonpos a Ha) in E. apply Some_inj in E. subst m.
    exfalso. assert (0 < pow2 53) by apply pow2_pos. lra.
Qed.

End Representable.

Section DigitStrings.
Local Open Scope string_scope.

(** ** Digit strings *)

Lemma split_at_app (k : nat) (s a b : string) :
  split_at k s = (a, b) -> s = a ++ b /\ String.length a = Nat.min k (String.length s).
Proof.
  revert s a b. induction k as [|k IH]; intros s a b H.
  - simpl in H. destruct s; injection H as <- <-; auto.
  - destruct s as [|c s]; simpl in H.
    + injection H as <- <-. auto.
    + destruct (split_at k s) as [a' b'] eqn:E. injection H as <- <-.
      destruct (IH _ _ _ E) as [-> L]. simpl. auto.
Qed.

Lemma string_length_app (s t : string) :
  String.length (s ++ t) = (String.length s + String.length t)%nat.
Proof. induction s as [|c s IH]; simpl; congruence. Qed.

Lemma string_app_assoc (s t u : string) : (s ++ t) ++ u = s ++ t ++ u.
Proof. induction s as [|c s IH]; simpl; congruence. Qed.


Lemma all_digits_app (s t : string) :
  all_digits (s ++ t) = all_digits s && all_digits t.
Proof.
  induction s as [|c s IH]; simpl; [reflexivity|].
  rewrite IH. apply andb_assoc.
Qed.

Lemma all_digits_zeros (k : nat) : all_digits (zeros k) = true.
Proof. induction k; simpl; auto. Qed.

Lemma length_zeros (k : nat) : String.length (zeros k) = k.
Proof. induction k; simpl; congruence. Qed.

Lemma digit_neq (c d : ascii) : not_digit c -> is_digit d = true -> Ascii.eqb d c = false.
Proof.
  intros Hc Hd. destruct (Ascii.eqb d c) eqn:E; [|reflexivity].
  apply Ascii.eqb_eq in E. subst d. unfold not_digit in Hc. congruence.
Qed.

Lemma cut_digits (c : ascii) (a b : string) :
  not_digit c -> all_digits a = true -> cut c (a ++ String c b) = (a, Some b).
Proof.
  intros Hc. induction a as [|d a IH]; simpl; intro H.
  - now rewrite Ascii.eqb_refl.
  - apply andb_prop in H. destruct H as [Hd Ha].
    rewrite (digit_neq c d Hc Hd), (IH Ha). reflexivity.
Qed.

Lemma cut_digits_none (c : ascii) (a : string) :
  not_digit c -> all_digits a = true -> cut c a = (a, None).
Proof.
  intros Hc. induction a as [|d a IH]; simpl; intro H; [reflexivity|].
  apply andb_prop in H. destruct H as [Hd Ha].
  rewrite (digit_neq c d Hc Hd), (IH Ha). reflexivity.
Qed.

(** Cutting at [c] a digit string followed by another character. *)
Lemma cut_skip (c e : ascii) (a b : string) :
  not_digit c -> all_digits a = true -> Ascii.eqb e c = false ->
  cut c (a ++ String e b) =
    (a ++ String e (fst (cut c b)), snd (cut c b)).
Proof.
  intros Hc. induction a as [|d a IH]; simpl; intros H He.
  - rewrite He. destruct (cut c b); reflexivity.
  - apply andb_prop in H. destruct H as [Hd Ha].
    rewrite (digit_neq c d Hc Hd), (IH Ha He). reflexivity.
Qed.

Lemma digits_value_app (s t : string) (acc : N) :
  digits_value (s ++ t) acc =
    match digits_value s acc with
    | Some v => digits_value t v
    | None => None
    end.
Proof.
  revert acc. induction s as [|c s IH]; simpl; intro acc; [reflexivity|].
  destruct (digit_value c); [apply IH | reflexivity].
Qed.

Lemma digits_value_zeros (k : nat) (acc : N) :
  digits_value (zeros k) acc = Some (acc * 10 ^ N.of_nat k)%N.
Proof.
  revert acc. induction k as [|k IH]; intro acc.
  - simpl. f_equal. lia.
  - cbn [zeros digits_value]. change (digit_value "0") with (Some 0%N).
    cbv iota. rewrite IH. f_equal.
    rewrite Nat2N.inj_succ, N.pow_succ_r'. lia.
Qed.

Lemma digits_value_uint_acc (d : Decimal.uint) (acc : positive) :
  digits_value (NilEmpty.string_of_uint d) (Npos acc) = Some (Npos (Pos.of_uint_acc d acc)).
Proof.
  revert acc. induction d; intro acc; cbn [NilEmpty.string_of_uint Pos.of_uint_acc];
    [reflexivity| cbn [digits_value]; cbv [digit_value Ascii.eqb Bool.eqb]..];
    match goal with
    | |- digits_value _ ?x = _ =>
        match goal with
        | IH : forall a, _ = Some (Npos (Pos.of_uint_acc _ a)) |- _ => rewrite <- IH
        end
    end; f_equal; lia.
Qed.

Lemma digits_value_uint (d : Decimal.uint) :
  digits_value (NilEmpty.string_of_uint d) 0 = Some (Pos.of_uint d).
Proof.
  induction d; cbn [NilEmpty.string_of_uint Pos.of_uint];
    [reflexivity| cbn [digits_value]; cbv [digit_value Ascii.eqb Bool.eqb]..];
    try (change (0 * 10 + 0)%N with 0%N; assumption);
    match goal with
    | |- digits_value _ ?x = Some (Npos (Pos.of_uint_acc _ ?p)) =>
        change x with (Npos p); apply digits_value_uint_acc
    end.
Qed.

Lemma digits_value_decimal (n : Z) :
  digits_value (decimal n) 0 = Some (Z.to_N n).
Proof.
  unfold decimal. rewrite digits_value_uint.
  change (Pos.of_uint (N.to_uint (Z.to_N n))) with (N.of_uint (N.to_uint (Z.to_N n))).
  now rewrite DecimalN.Unsigned.of_to.
Qed.

Lemma all_digits_uint (d : Decimal.uint) :
  all_digits (NilEmpty.string_of_uint d) = true.
Proof. induction d; simpl; auto. Qed.

Lemma all_digits_decimal (n : Z) : all_digits (decimal n) = true.
Proof. apply all_digits_uint. Qed.

Lemma decimal_nonempty (n : Z) : exists c s, decimal n = String c s.
Proof.
  unfold decimal.
  assert (H : N.to_uint (Z.to_N n) <> Decimal.Nil).
  { destruct (Z.to_N n) as [|p]; [discriminate|].
    apply DecimalPos.Unsigned.to_uint_nonnil. }
  destruct (N.to_uint (Z.to_N n)); [congruence|..]; simpl; eauto.
Qed.

(** A digit string is its stripped part followed by zeroes. *)
Lemma strip_trailing_zeros_spec (s : string) :
  exists j, s = strip_trailing_zeros s ++ zeros j.
Proof.
  induction s as [|c s [j IH]].
  - exists 0%nat. reflexivity.
  - simpl. destruct (strip_trailing_zeros s) as [|d t] eqn:E.
    + destruct (Ascii.eqb c "0") eqn:C.
      * apply Ascii.eqb_eq in C. subst c. exists (S j). simpl in *. congruence.
      * exists j. simpl in *. congruence.
    + exists j. simpl in *. congruence.
Qed.

Lemma all_digits_strip (s : string) :
  all_digits s = true -> all_digits (strip_trailing_zeros s) = true.
Proof.
  intro H. destruct (strip_trailing_zeros_spec s) as [j E].
  rewrite E, all_digits_app in H. apply andb_prop in H. tauto.
Qed.

End DigitStrings.

Section FixedNotation.
Local Open Scope string_scope.

(** ** What [toFixed(1)] prints below 10^21 *)

Lemma split_last (s : string) :
  s <> "" ->
  exists a d, split_at (String.length s - 1) s = (a, String d "") /\ s = a ++ String d "".
Proof.
  intro N. destruct (split_at (String.length s - 1) s) as [a b] eqn:E.
  destruct (split_at_app _ _ _ _ E) as [Es La].
  assert (Lb : String.length b = 1%nat).
  { assert (String.length s <> 0)%nat by (destruct s; simpl; congruence).
    pose proof (f_equal String.length Es) as L. rewrite string_length_app in L. lia. }
  destruct b as [|d [|]]; simpl in Lb; try lia.
  exists a, d. split; [reflexivity | exact Es].
Qed.

Lemma toFixed1_fixed (s : bool) (m : Q) :
  Qle_bool (inject_Z (10 ^ 21)) m = false ->
  exists a d,
    toFixed 1 (Finite s m) = sign_of s m ++ a ++ String "." (String d "") /\
    all_digits a = true /\ a <> "" /\ is_digit d = true /\
    digits_value (a ++ String d "") 0 = Some (Z.to_N (nearest_scaled 1 m)).
Proof.
  intro H. unfold toFixed. rewrite H. cbv zeta. fold (sign_of s m).
  set (n := nearest_scaled 1 m).
  pose proof (all_digits_decimal n) as D.
  pose proof (digits_value_decimal n) as V.
  destruct (decimal_nonempty n) as (c & t & E). rewrite E in *.
  destruct t as [|c2 t].
  - (* one digit: a zero is put before it *)
    exists "0", c. cbn. cbn in D, V.
    rewrite andb_true_r in D. rewrite D.
    repeat split; try reflexivity; try discriminate. exact V.
  - assert (K : (String.length (String c (String c2 t)) <=? 1)%nat = false) by reflexivity.
    rewrite K.
    destruct (split_last (String c (String c2 t))) as (a & d & Es & Ea); [discriminate|].
    rewrite Es. exists a, d. split; [reflexivity|].
    rewrite Ea in D, V. rewrite all_digits_app in D.
    apply andb_prop in D. destruct D as [Da Dd]. cbn in Dd. rewrite andb_true_r in Dd.
    repeat split; try assumption.
    intros ->. cbn in Ea. discriminate Ea.
Qed.

Lemma not_digit_point : not_digit ".".
Proof. reflexivity. Qed.
Lemma not_digit_e : not_digit "e".
Proof. reflexivity. Qed.
Lemma not_digit_minus : not_digit "-".
Proof. reflexivity. Qed.
Lemma not_digit_I : not_digit "I".
Proof. reflexivity. Qed.

Lemma sign_of_cases (s : bool) (m : Q) : sign_of s m = "" \/ sign_of s m = "-".
Proof. unfold sign_of. destruct (s && negb (is_zero m)); auto. Qed.

(** Removing the sign of a signed digit string. *)
Lemma unsign_digits (neg : bool) (c : ascii) (t : string) :
  is_digit c = true ->
  unsign ((if neg then "-" else "") ++ String c t) = (neg, String c t).
Proof.
  intro H. destruct neg; cbn; [reflexivity|].
  now rewrite (digit_neq "-" c not_digit_minus H).
Qed.

Lemma one_fraction_digit_shape (neg : bool) (a : string) (d : ascii) :
  all_digits a = true -> a <> "" -> is_digit d = true ->
  one_fraction_digit ((if neg then "-" else "") ++ a ++ String "." (String d "")) = true.
Proof.
  intros Da Na Dd. destruct a as [|c a]; [congruence|].
  unfold one_fraction_digit. cbn [append].
  pose proof Da as Da'. cbn [all_digits] in Da'. apply andb_prop in Da'.
  rewrite (unsign_digits neg c _ (proj1 Da')). cbn [snd].
  change (String c (a ++ String "." (String d ""))) with
    (String c a ++ String "." (String d "")).
  rewrite (cut_digits "." _ _ not_digit_point Da).
  rewrite Da, Dd. reflexivity.
Qed.

(** The number printed with one fractional digit. *)
Lemma unsigned_value_point (a : string) (d : ascii) (v : N) :
  all_digits a = true -> a <> "" -> is_digit d = true ->
  digits_value (a ++ String d "") 0 = Some v ->
  unsigned_value (a ++ String "." (String d "")) =
    Some (inject_Z (Z.of_N v) / inject_Z (10 ^ Z.of_nat 1))%Q.
Proof.
  intros Da Na Dd V. unfold unsigned_value.
  assert (Ed : all_digits (String d "") = true) by (cbn; now rewrite Dd).
  rewrite (cut_skip "e" "." a (String d "") not_digit_e Da eq_refl).
  rewrite (cut_digits_none "e" _ not_digit_e Ed). cbn [fst snd].
  cbv beta iota zeta.
  rewrite (cut_digits "." _ _ not_digit_point Da).
  cbv beta iota zeta.
  destruct a as [|c a]; [congruence|]. rewrite V. reflexivity.
Qed.

Lemma numeric_value_point (neg : bool) (a : string) (d : ascii) (v : N) :
  all_digits a = true -> a <> "" -> is_digit d = true ->
  digits_value (a ++ String d "") 0 = Some v ->
  numeric_value ((if neg then "-" else "") ++ a ++ String "." (String d "")) =
    Some (VFinite (if neg then - (inject_Z (Z.of_N v) / inject_Z (10 ^ Z.of_nat 1))
                   else inject_Z (Z.of_N v) / inject_Z (10 ^ Z.of_nat 1))%Q).
Proof.
  intros Da Na Dd V. unfold numeric_value.
  pose proof (unsigned_value_point a d v Da Na Dd V) as U.
  destruct a as [|c a]; [congruence|].
  pose proof Da as Da'. cbn [all_digits] in Da'. apply andb_prop in Da'.
  cbn [append] in *. rewrite (unsign_digits neg c _ (proj1 Da')).
  assert (I : String.eqb (String c (a ++ String "." (String d ""))) "Infinity" = false).
  { cbn [String.eqb]. now rewrite (digit_neq "I" c not_digit_I (proj1 Da')). }
  rewrite I, U. reflexivity.
Qed.

End FixedNotation.

Section ScaledValues.
Local Open Scope Q_scope.

(** ** The four scaled values are monotone in the year *)

Lemma yearDiff_mono (x y : Number) : num_le x y -> num_le (yearDiff x) (yearDiff y).
Proof. unfold yearDiff. change (lit 2023) with (Finite false 2023). apply subtract_mono_l. Qed.

Lemma slope_mono (slope x y : Number) :
  is_positive slope = true -> num_le x y ->
  num_le (divide (multiply (yearDiff x) slope) (lit 27))
         (divide (multiply (yearDiff y) slope) (lit 27)).
Proof.
  intros Hs H. apply divide_mono; [reflexivity|].
  apply multiply_mono; [exact Hs|]. apply yearDiff_mono. exact H.
Qed.

Lemma base_temperature_mono (x y : Number) :
  num_le x y -> num_le (base_temperature x) (base_temperature y).
Proof.
  intro H. unfold base_temperature.
  change (lit (11 # 10)) with (Finite false (2476979795053773 # 2251799813685248)) at 1 3.
  apply add_mono_r. apply slope_mono; [reflexivity | exact H].
Qed.

Lemma base_precipitation_mono (x y : Number) :
  num_le x y -> num_le (base_precipitation x) (base_precipitation y).
Proof. apply slope_mono. reflexivity. Qed.

Lemma base_seaLevel_mono (x y : Number) :
  num_le x y -> num_le (base_seaLevel x) (base_seaLevel y).
Proof. apply slope_mono. reflexivity. Qed.

Lemma base_extremeEvents_mono (x y : Number) :
  num_le x y -> num_le (base_extremeEvents x) (base_extremeEvents y).
Proof. apply slope_mono. reflexivity. Qed.

Lemma factors_positive (r : Region) (f : Factors.t) :
  lookup regionalFactors r = Some f -> positive_factors f = true.
Proof. intro H. destruct r; vm_compute in H; apply Some_inj in H; subst f; reflexivity. Qed.

Lemma positive_factors_inv (f : Factors.t) :
  positive_factors f = true ->
  is_positive (Factors.temperature f) = true /\
  is_positive (Factors.precipitation f) = true /\
  is_positive (Factors.seaLevel f) = true /\
  is_positive (Factors.extremeEvents f) = true.
Proof.
  unfold positive_factors. intro H.
  apply andb_prop in H. destruct H as [H H4].
  apply andb_prop in H. destruct H as [H H3].
  apply andb_prop in H. destruct H as [H1 H2]. auto.
Qed.

(** ** Values between two small values are small *)

Lemma small_between (lo x hi : Number) :
  num_le lo x -> num_le x hi -> small lo = true -> small hi = true -> small x = true.
Proof.
  intros (Wl & Wx & H1) (_ & Wh & H2) Sl Sh.
  destruct lo as [|?|s0 m0]; try discriminate Sl.
  destruct hi as [|?|s1 m1]; try discriminate Sh.
  destruct x as [|[|]|s m]; cbn [val Value_le] in H1, H2; try contradiction.
  cbn [small wf] in *.
  apply negb_true_iff in Sl, Sh. apply negb_true_iff.
  destruct (Qle_bool (inject_Z (10 ^ 21)) m) eqn:E; [exfalso|reflexivity].
  apply Qle_bool_iff in E.
  assert (L0 : m0 < inject_Z (10 ^ 21)).
  { apply Qnot_le_lt. intro C. apply Qle_bool_iff in C. congruence. }
  assert (L1 : m1 < inject_Z (10 ^ 21)).
  { apply Qnot_le_lt. intro C. apply Qle_bool_iff in C. congruence. }
  destruct s0, s1, s; cbn [signed] in H1, H2; lra.
Qed.

Lemma toFixed1_small (x : Number) :
  wf x -> small x = true -> one_fraction_digit (toFixed 1 x) = true.
Proof.
  intros W S. destruct x as [| |s m]; try discriminate S.
  cbn [small] in S. apply negb_true_iff in S.
  destruct (toFixed1_fixed s m S) as (a & d & E & Da & Na & Dd & _).
  rewrite E. unfold sign_of. apply one_fraction_digit_shape; assumption.
Qed.

Lemma multiply_wf (x y : Number) : wf (multiply x y).
Proof.
  destruct x as [|s|s a], y as [|t|t b]; cbn [multiply]; try exact I.
  - destruct (is_zero b); exact I.
  - destruct (is_zero a); exact I.
  - apply round_signed_wf.
Qed.

Lemma of_Q_wf (x : Q) : wf (of_Q x).
Proof. apply round_signed_wf. Qed.

Lemma of_Q_val (x : Q) : val (of_Q x) <> None.
Proof. apply round_signed_val. Qed.

(** A scaled value is small for every year between two years at which it
    is small. *)
Lemma scaled_small (base : Number -> Number) (f : Number) (lo hi y : Z) :
  (forall x x', num_le x x' -> num_le (base x) (base x')) ->
  is_positive f = true ->
  small (multiply (base (of_Z lo)) f) = true ->
  small (multiply (base (of_Z hi)) f) = true ->
  (lo <= y <= hi)%Z ->
  small (multiply (base (of_Z y)) f) = true.
Proof.
  intros Hb Hf Sl Sh [H1 H2].
  apply (small_between (multiply (base (of_Z lo)) f) _ (multiply (base (of_Z hi)) f));
    try assumption; apply multiply_mono; try assumption; apply Hb; apply of_Z_mono;
    assumption.
Qed.

End ScaledValues.

Section Integers.
Local Open Scope Q_scope.

(** ** Integers below 2^53 are Numbers *)

Lemma pow2_opp (z : Z) : pow2 (- z) == / pow2 z.
Proof. apply Qpower_opp. Qed.

Lemma nearest_integer (z : Z) :
  (0 < z < 2 ^ 53)%Z -> nearest (inject_Z z) == inject_Z z.
Proof.
  intro Hz. set (a := inject_Z z).
  assert (Ha : 0 < a) by (unfold a; change 0 with (inject_Z 0); rewrite <- Zlt_Qlt; lia).
  destruct (floor_log2_spec a Ha) as [L _].
  assert (H53 : a < pow2 53).
  { unfold a. rewrite (pow2_Z 53) by lia. rewrite <- Zlt_Qlt. lia. }
  assert (He : (floor_log2 a < 53)%Z).
  { apply pow2_lt_inv. eapply Qle_lt_trans; eassumption. }
  assert (Hq : (ulp_exp a <= 0)%Z) by (unfold ulp_exp; lia).
  unfold nearest.
  assert (E : a / pow2 (ulp_exp a) == inject_Z (z * 2 ^ (- ulp_exp a))).
  { rewrite inject_Z_mult, <- (pow2_Z (- ulp_exp a)) by lia. fold a.
    unfold Qdiv. rewrite pow2_opp. reflexivity. }
  rewrite (rhe_comp _ _ E), rhe_Z.
  rewrite inject_Z_mult, <- (pow2_Z (- ulp_exp a)) by lia. fold a.
  rewrite <- Qmult_assoc, <- pow2_add.
  replace (- ulp_exp a + ulp_exp a)%Z with 0%Z by ring.
  change (pow2 0) with 1. ring.
Qed.

Lemma round_mag_integer_exact (z : Z) :
  (0 <= z < 2 ^ 53)%Z -> round_mag (inject_Z z) = Some (inject_Z z).
Proof.
  intro Hz. destruct (Z.eq_dec z 0) as [->|N]; [reflexivity|].
  assert (Hp : (0 < z < 2 ^ 53)%Z) by lia.
  assert (Ha : 0 < inject_Z z) by (change 0 with (inject_Z 0); rewrite <- Zlt_Qlt; lia).
  rewrite (round_mag_pos _ Ha).
  pose proof (nearest_integer z Hp) as E.
  assert (O : Qle_bool (pow2 1024) (nearest (inject_Z z)) = false).
  { destruct (Qle_bool (pow2 1024) (nearest (inject_Z z))) eqn:O; [exfalso|reflexivity].
    apply Qle_bool_iff in O. rewrite E in O.
    rewrite (pow2_Z 1024) in O by lia. rewrite <- Zle_Qle in O.
    assert (2 ^ 53 < 2 ^ 1024)%Z by (apply Z.pow_lt_mono_r; lia). lia. }
  rewrite O. f_equal. rewrite (Qred_complete _ _ E).
  apply Qred_identity. simpl. apply Z.gcd_1_r.
Qed.

Lemma of_Z_exact (z : Z) :
  (Z.abs z < 2 ^ 53)%Z -> of_Z z = Finite (z <? 0)%Z (inject_Z (Z.abs z)).
Proof.
  intro Hz. unfold of_Z, of_Q, round_signed.
  assert (Ea : Qabs (inject_Z z) = inject_Z (Z.abs z)) by reflexivity.
  rewrite Ea, round_mag_integer_exact by lia. f_equal.
  unfold Qle_bool, Qeq_bool. simpl. rewrite !Z.mul_1_r.
  destruct z; reflexivity.
Qed.

(** Below 2^53 the difference [year - 2023] is computed exactly. *)
Lemma yearDiff_exact (y : Z) :
  (Z.abs y < 2 ^ 53 - 2023)%Z -> yearDiff (of_Z y) = of_Z (y - 2023).
Proof.
  intro Hy. unfold yearDiff, subtract.
  change (unaryMinus (lit 2023)) with (Finite true 2023).
  rewrite (of_Z_exact y), (of_Z_exact (y - 2023)) by lia.
  rewrite add_finite. unfold add_exact.
  set (v := signed (y <? 0)%Z (inject_Z (Z.abs y)) + signed true 2023).
  assert (Ev : v == inject_Z (y - 2023)).
  { unfold v. unfold Zminus. rewrite inject_Z_plus, inject_Z_opp.
    change (inject_Z 2023) with 2023. cbn [signed].
    destruct (Z.ltb_spec y 0) as [Hn|Hn]; cbn [signed].
    - rewrite Z.abs_neq by lia. rewrite inject_Z_opp. ring.
    - rewrite Z.abs_eq by lia. ring. }
  destruct (Qeq_bool v 0) eqn:E0.
  - apply Qeq_bool_iff in E0. rewrite Ev in E0.
    assert (y - 2023 = 0)%Z as Hz.
    { unfold Qeq in E0. simpl in E0. lia. }
    rewrite Hz. assert (y = 2023%Z) as -> by lia. reflexivity.
  - unfold round_signed.
    assert (Eabs : Qabs v == inject_Z (Z.abs (y - 2023))).
    { rewrite (Qabs_wd _ _ Ev). reflexivity. }
    rewrite (round_mag_comp _ _ Eabs), round_mag_integer_exact by lia.
    f_equal. unfold Qle_bool.
    assert (Nz : (y - 2023 <> 0)%Z).
    { intro C. rewrite C in Ev. apply Qeq_bool_neq in E0. apply E0. exact Ev. }
    destruct (Z.ltb_spec (y - 2023) 0) as [Hn|Hn].
    + apply Z.leb_le. unfold Qeq in Ev. simpl in Ev. simpl. lia.
    + apply Z.leb_gt. unfold Qeq in Ev. simpl in Ev. simpl. lia.
Qed.

End Integers.

Section ScientificNotation.
Local Open Scope string_scope.

(** ** What scientific notation denotes *)


(** significand [a.b], exponent [e] *)
Lemma unsigned_value_scientific (c0 : ascii) (b e : string) (mv ev : N) :
  is_digit c0 = true -> all_digits b = true ->
  e <> "" -> digits_value e 0 = Some ev ->
  digits_value (String c0 b) 0 = Some mv ->
  unsigned_value
    (match b with
     | "" => String c0 "" ++ "e+" ++ e
     | _ => String c0 "" ++ "." ++ b ++ "e+" ++ e
     end) =
  Some (inject_Z (Z.of_N mv * 10 ^ Z.of_N ev)
        / inject_Z (10 ^ Z.of_nat (String.length b)))%Q.
Proof.
  intros D0 Db Ne Ve Vm.
  assert (Da : all_digits (String c0 "") = true) by (cbn; now rewrite D0).
  destruct e as [|c1 e1]; [congruence|].
  unfold unsigned_value. destruct b as [|b0 b'].
  - change (String c0 "" ++ "e+" ++ String c1 e1)
      with (String c0 "" ++ String "e" (String "+" (String c1 e1))).
    rewrite (cut_digits "e" _ _ not_digit_e Da). cbv beta iota zeta.
    rewrite (cut_digits_none "." _ not_digit_point Da). cbv beta iota zeta.
    change (String c0 "" ++ "") with (String c0 "").
    rewrite Vm. change (Ascii.eqb "+" "+") with true. cbv iota.
    rewrite Ve. reflexivity.
  - change (String c0 "" ++ "." ++ String b0 b' ++ "e+" ++ String c1 e1)
      with (String c0 "" ++ String "." (String b0 b' ++ String "e" (String "+" (String c1 e1)))).
    rewrite (cut_skip "e" "." _ _ not_digit_e Da eq_refl).
    rewrite (cut_digits "e" _ _ not_digit_e Db). cbn [fst snd]. cbv beta iota zeta.
    rewrite (cut_digits "." _ _ not_digit_point Da). cbv beta iota zeta.
    change (String c0 "" ++ String b0 b') with (String c0 (String b0 b')).
    rewrite Vm. change (Ascii.eqb "+" "+") with true. cbv iota.
    rewrite Ve. reflexivity.
Qed.

Lemma scientific_shape (c : Z) :
  (0 < c)%Z ->
  exists c0 b mv j,
    scientific c =
      (match b with
       | "" => String c0 "" ++ "e+" ++ decimal (Z.of_nat (String.length b + j))
       | _ => String c0 "" ++ "." ++ b ++ "e+" ++ decimal (Z.of_nat (String.length b + j))
       end) /\
    is_digit c0 = true /\ all_digits b = true /\
    digits_value (String c0 b) 0 = Some mv /\
    c = (Z.of_N mv * 10 ^ Z.of_nat j)%Z.
Proof.
  intro Hc. unfold scientific.
  pose proof (all_digits_decimal c) as D.
  pose proof (digits_value_decimal c) as V.
  destruct (decimal_nonempty c) as (c0 & rest & E). rewrite E in *.
  cbn [split_at String.length].
  replace (S (String.length rest) - 1)%nat with (String.length rest) by lia.
  destruct (strip_trailing_zeros_spec rest) as [j Ej].
  set (b := strip_trailing_zeros rest) in *.
  cbn [all_digits] in D. apply andb_prop in D. destruct D as [D0 Dr].
  assert (Db : all_digits b = true) by (apply all_digits_strip; exact Dr).
  assert (El : String.length rest = (String.length b + j)%nat).
  { rewrite Ej at 1. rewrite string_length_app, length_zeros. reflexivity. }
  rewrite El.
  change (String c0 rest) with (String c0 "" ++ rest) in V.
  rewrite Ej in V.
  change (String c0 "" ++ b ++ zeros j) with (String c0 b ++ zeros j) in V.
  rewrite digits_value_app in V.
  destruct (digits_value (String c0 b) 0) as [mv|] eqn:Vm; [|discriminate].
  rewrite digits_value_zeros in V. apply Some_inj in V.
  exists c0, b, mv, j. split; [reflexivity|].
  repeat split; try assumption.
  rewrite <- (Z2N.id c) by lia. rewrite <- V.
  rewrite N2Z.inj_mul, N2Z.inj_pow, nat_N_Z. reflexivity.
Qed.

Lemma numeric_value_scientific (neg : bool) (c : Z) :
  (0 < c)%Z ->
  exists q, numeric_value ((if neg then "-" else "") ++ scientific c) = Some (VFinite q) /\
            (q == if neg then - inject_Z c else inject_Z c)%Q.
Proof.
  intro Hc. destruct (scientific_shape c Hc) as (c0 & b & mv & j & E & D0 & Db & Vm & Ec).
  set (e := decimal (Z.of_nat (String.length b + j))) in *.
  assert (Ne : e <> "").
  { destruct (decimal_nonempty (Z.of_nat (String.length b + j))) as (c1 & e1 & Ee).
    unfold e. rewrite Ee. discriminate. }
  assert (Ve : digits_value e 0 = Some (N.of_nat (String.length b + j))).
  { unfold e. rewrite digits_value_decimal. f_equal. lia. }
  pose proof (unsigned_value_scientific c0 b e mv _ D0 Db Ne Ve Vm) as U.
  rewrite <- E in U.
  assert (Es : exists t, scientific c = String c0 t).
  { rewrite E. destruct b; cbn; eauto. }
  destruct Es as [t Et]. unfold numeric_value.
  rewrite Et, (unsign_digits neg c0 t D0), <- Et.
  assert (I : String.eqb (scientific c) "Infinity" = false).
  { rewrite Et. cbn [String.eqb]. now rewrite (digit_neq "I" c0 not_digit_I D0). }
  rewrite I, U. eexists. split; [reflexivity|].
  assert (Q : (inject_Z (Z.of_N mv * 10 ^ Z.of_N (N.of_nat (String.length b + j)))
               / inject_Z (10 ^ Z.of_nat (String.length b)) == inject_Z c)%Q).
  { rewrite Ec, nat_N_Z, Nat2Z.inj_add, Z.pow_add_r by lia.
    rewrite !inject_Z_mult. field.
    change 0%Q with (inject_Z 0). rewrite inject_Z_injective.
    apply Z.pow_nonzero; lia. }
  destruct neg; rewrite Q; reflexivity.
Qed.

End ScientificNotation.

Section ShortestDigits.
Local Open Scope Q_scope.

(** ** The shortest digits that denote a magnitude *)

Lemma Qeq_bool_comp_r (y x x' : Q) : x == x' -> Qeq_bool y x = Qeq_bool y x'.
Proof.
  intro H. destruct (Qeq_bool y x) eqn:E, (Qeq_bool y x') eqn:E'; try reflexivity.
  - apply Qeq_bool_iff in E. apply Qeq_bool_neq in E'. exfalso. apply E'.
    rewrite E. exact H.
  - apply Qeq_bool_iff in E'. apply Qeq_bool_neq in E. exfalso. apply E.
    rewrite E'. symmetry. exact H.
Qed.

Lemma denotes_comp (c : Z) (x x' : Q) : x == x' -> denotes c x = denotes c x'.
Proof.
  intro H. unfold denotes. destruct (round_mag (inject_Z c)); [|reflexivity].
  apply Qeq_bool_comp_r. exact H.
Qed.

Lemma denotes_round (c : Z) (x : Q) :
  denotes c x = true -> exists y, round_mag (inject_Z c) = Some y /\ y == x.
Proof.
  unfold denotes. destruct (round_mag (inject_Z c)) as [y|]; [|discriminate].
  intro H. apply Qeq_bool_iff in H. eauto.
Qed.

Lemma shortest_comp (x x' : Q) (X : Z) (fuel : nat) :
  x == x' -> shortest x X fuel = shortest x' X fuel.
Proof.
  intro H. induction fuel as [|fuel IH]; [reflexivity|].
  cbn [shortest]. rewrite IH.
  rewrite (denotes_comp _ x x' H), (denotes_comp ((_ + 1) * _) x x' H). reflexivity.
Qed.

(** When [X] itself denotes [x], the search returns digits that denote [x]. *)
Lemma shortest_denotes (x : Q) (X : Z) (fuel : nat) :
  denotes X x = true -> (1 <= fuel)%nat -> denotes (shortest x X fuel) x = true.
Proof.
  intros HX. induction fuel as [|fuel IH]; intro Hf; [lia|].
  cbn [shortest].
  destruct (denotes (X / 10 ^ Z.of_nat fuel * 10 ^ Z.of_nat fuel) x) eqn:E1,
           (denotes ((X / 10 ^ Z.of_nat fuel + 1) * 10 ^ Z.of_nat fuel) x) eqn:E2;
    try assumption.
  - destruct (_ ?= _)%Z; try assumption.
    destruct (Z.even _); assumption.
  - destruct fuel as [|fuel]; [|apply IH; lia].
    change (10 ^ Z.of_nat 0)%Z with 1%Z in E1.
    rewrite Z.div_1_r, Z.mul_1_r in E1. congruence.
Qed.

(** Distinct magnitudes are denoted by digits in the same order. *)
Lemma denotes_mono (c1 c2 : Z) (x1 x2 : Q) :
  x1 < x2 -> denotes c1 x1 = true -> denotes c2 x2 = true -> (c1 <= c2)%Z.
Proof.
  intros H D1 D2.
  destruct (denotes_round _ _ D1) as (y1 & R1 & E1).
  destruct (denotes_round _ _ D2) as (y2 & R2 & E2).
  destruct (Z_le_gt_dec c1 c2) as [L|G]; [exact L|exfalso].
  assert (Hc : inject_Z c2 <= inject_Z c1) by (rewrite <- Zle_Qle; lia).
  pose proof (round_mag_mono _ _ Hc) as M. rewrite R1, R2 in M. cbn [mag_le] in M.
  rewrite E1, E2 in M. lra.
Qed.

(** A representable magnitude of at least 10^21 is denoted by its integer
    part. *)
Lemma large_denotes (m : Q) :
  round_mag m = Some m -> inject_Z (10 ^ 21) <= m -> denotes (Qfloor m) m = true.
Proof.
  intros R H.
  assert (H53 : pow2 53 <= m).
  { eapply Qle_trans; [|exact H]. rewrite (pow2_Z 53) by lia.
    rewrite <- Zle_Qle. vm_compute. discriminate. }
  pose proof (round_mag_integer m m R H53) as I.
  unfold denotes. rewrite (round_mag_comp _ _ I), R.
  apply Qeq_bool_iff. reflexivity.
Qed.

Lemma decimal_length_pos (n : Z) : (1 <= String.length (decimal n))%nat.
Proof. destruct (decimal_nonempty n) as (c & s & E). rewrite E. simpl. lia. Qed.

Lemma printed_large_denotes (m : Q) :
  round_mag m = Some m -> inject_Z (10 ^ 21) <= m ->
  denotes (shortest m (Qfloor m) (String.length (decimal (Qfloor m)))) m = true.
Proof.
  intros R H. apply shortest_denotes; [apply large_denotes; assumption|].
  apply decimal_length_pos.
Qed.

Lemma denotes_positive (c : Z) (x : Q) : denotes c x = true -> 0 < x -> (0 < c)%Z.
Proof.
  intros D Hx. destruct (denotes_round _ _ D) as (y & R & E).
  destruct (Z_lt_le_dec 0 c) as [L|L]; [exact L|exfalso].
  assert (inject_Z c <= 0) as Hc by (change 0 with (inject_Z 0); rewrite <- Zle_Qle; lia).
  rewrite (round_mag_nonpos _ Hc) in R. apply Some_inj in R. subst y.
  rewrite <- E in Hx. discriminate Hx.
Qed.

(** ** The printed magnitude is monotone *)

Lemma nearest_scaled_mono (x y : Q) :
  x <= y -> (nearest_scaled 1 x <= nearest_scaled 1 y)%Z.
Proof.
  intro H. unfold nearest_scaled. apply Qfloor_resp_le.
  apply Qplus_le_compat; [|apply Qle_refl].
  apply Qmult_le_compat_r; [exact H | discriminate].
Qed.

Lemma nearest_scaled_nonneg (x : Q) : 0 <= x -> (0 <= nearest_scaled 1 x)%Z.
Proof.
  intro H. unfold nearest_scaled.
  change 0%Z with (Qfloor 0). apply Qfloor_resp_le.
  assert (0 <= x * inject_Z (10 ^ Z.of_nat 1)).
  { apply Qmult_le_0_compat; [exact H | discriminate]. }
  lra.
Qed.

Lemma Qle_bool_false (a b : Q) : Qle_bool a b = false -> b < a.
Proof. intro H. apply Qnot_le_lt. intro C. apply Qle_bool_iff in C. congruence. Qed.

Lemma printed_small_bound (m : Q) :
  Qle_bool (inject_Z (10 ^ 21)) m = false -> printed m <= inject_Z (10 ^ 21).
Proof.
  intro H. unfold printed. rewrite H. apply Qle_bool_false in H.
  apply Qle_shift_div_r; [reflexivity|].
  rewrite <- inject_Z_mult, <- Zle_Qle.
  assert (B : (nearest_scaled 1 m < 10 ^ 21 * 10 ^ Z.of_nat 1 + 1)%Z).
  { rewrite Zlt_Qlt. eapply Qle_lt_trans; [apply Qfloor_le|].
    rewrite inject_Z_plus, inject_Z_mult.
    assert (m * inject_Z (10 ^ Z.of_nat 1) < inject_Z (10 ^ 21) * inject_Z (10 ^ Z.of_nat 1)).
    { apply Qmult_lt_compat_r; [reflexivity | exact H]. }
    change (inject_Z 1) with 1. lra. }
  lia.
Qed.

Lemma ten21_denotes :
  denotes (shortest (inject_Z (10 ^ 21)) (10 ^ 21)
             (String.length (decimal (10 ^ 21)))) (inject_Z (10 ^ 21)) = true /\
  shortest (inject_Z (10 ^ 21)) (10 ^ 21) (String.length (decimal (10 ^ 21)))
    = (10 ^ 21)%Z.
Proof. split; vm_compute; reflexivity. Qed.

Lemma printed_mono (m1 m2 : Q) :
  round_mag m1 = Some m1 -> round_mag m2 = Some m2 ->
  m1 <= m2 -> printed m1 <= printed m2.
Proof.
  intros R1 R2 H.
  assert (Large : forall a b, round_mag a = Some a -> round_mag b = Some b ->
            inject_Z (10 ^ 21) <= a -> a <= b ->
            (shortest a (Qfloor a) (String.length (decimal (Qfloor a)))
             <= shortest b (Qfloor b) (String.length (decimal (Qfloor b))))%Z).
  { intros a b Ra Rb La Hab.
    assert (Lb : inject_Z (10 ^ 21) <= b) by (eapply Qle_trans; eassumption).
    destruct (Qlt_le_dec a b) as [Lt|Ge].
    - apply (denotes_mono _ _ a b Lt); apply printed_large_denotes; assumption.
    - assert (E : a == b) by (apply Qle_antisym; assumption).
      rewrite (Qfloor_comp _ _ E), (shortest_comp a b _ _ E). apply Z.le_refl. }
  unfold printed at 2.
  destruct (Qle_bool (inject_Z (10 ^ 21)) m2) eqn:E2.
  - apply Qle_bool_iff in E2.
    assert (T : (10 ^ 21 <= shortest m2 (Qfloor m2) (String.length (decimal (Qfloor m2))))%Z).
    { destruct ten21_denotes as [_ E]. rewrite <- E at 1.
      pose proof (Large (inject_Z (10 ^ 21)) m2) as L.
      rewrite Qfloor_Z in L. apply L; try assumption.
      - vm_compute. reflexivity.
      - apply Qle_refl. }
    destruct (Qle_bool (inject_Z (10 ^ 21)) m1) eqn:E1.
    + unfold printed. rewrite E1. apply Qle_bool_iff in E1.
      rewrite <- Zle_Qle. apply Large; assumption.
    + eapply Qle_trans; [apply printed_small_bound; exact E1|].
      rewrite <- Zle_Qle. exact T.
  - assert (E1 : Qle_bool (inject_Z (10 ^ 21)) m1 = false).
    { apply Qle_bool_false in E2.
      destruct (Qle_bool (inject_Z (10 ^ 21)) m1) eqn:E1; [exfalso|reflexivity].
      apply Qle_bool_iff in E1. lra. }
    unfold printed. rewrite E1.
    apply Qmult_le_compat_r; [|discriminate].
    rewrite <- Zle_Qle. apply nearest_scaled_mono. exact H.
Qed.

Lemma printed_zero (m : Q) : m == 0 -> printed m == 0.
Proof.
  intro H. unfold printed.
  assert (E : Qle_bool (inject_Z (10 ^ 21)) m = false).
  { destruct (Qle_bool (inject_Z (10 ^ 21)) m) eqn:E; [exfalso|reflexivity].
    apply Qle_bool_iff in E. rewrite H in E. revert E.
    apply Qlt_not_le. reflexivity. }
  rewrite E. unfold nearest_scaled.
  assert (E0 : m * inject_Z (10 ^ Z.of_nat 1) + (1 # 2) == 1 # 2) by (rewrite H; reflexivity).
  rewrite (Qfloor_comp _ _ E0). reflexivity.
Qed.

Lemma printed_nonneg (m : Q) : round_mag m = Some m -> 0 <= m -> 0 <= printed m.
Proof.
  intros R H. rewrite <- (printed_zero 0) by reflexivity.
  apply printed_mono; [reflexivity | exact R | exact H].
Qed.

End ShortestDigits.

Section PrintedValue.
Local Open Scope Q_scope.

(** ** The value of a string that [toFixed(1)] returns *)

Lemma round_signed_canonical (s : bool) (a : Q) : canonical (round_signed s a).
Proof.
  unfold round_signed. destruct (round_mag a) as [m|] eqn:E; [|exact I].
  exact (round_mag_idem a m E).
Qed.

Lemma multiply_canonical (x y : Number) : canonical (multiply x y).
Proof.
  destruct x as [|s|s a], y as [|t|t b]; cbn [multiply]; try exact I.
  - destruct (is_zero b); exact I.
  - destruct (is_zero a); exact I.
  - apply round_signed_canonical.
Qed.

Lemma toFixed1_value (s : bool) (m : Q) :
  0 <= m -> round_mag m = Some m ->
  exists q, numeric_value (toFixed 1 (Finite s m)) = Some (VFinite q) /\
            q == signed s (printed m).
Proof.
  intros Hm R. destruct (Qle_bool (inject_Z (10 ^ 21)) m) eqn:E.
  - (* exponent notation *)
    pose proof E as L. apply Qle_bool_iff in L.
    assert (Pm : 0 < m) by (eapply Qlt_le_trans; [|exact L]; reflexivity).
    pose proof (printed_large_denotes m R L) as D.
    pose proof (denotes_positive _ _ D Pm) as Hc.
    unfold toFixed. rewrite E. unfold toString_large.
    rewrite (is_zero_false m Pm), andb_true_r.
    destruct (numeric_value_scientific s _ Hc) as (q & Eq & Hq).
    exists q. split; [exact Eq|].
    unfold printed. rewrite E. rewrite Hq. destruct s; reflexivity.
  - (* fixed notation *)
    destruct (toFixed1_fixed s m E) as (a & d & Et & Da & Na & Dd & V).
    rewrite Et. unfold sign_of.
    rewrite (numeric_value_point _ a d _ Da Na Dd V).
    eexists. split; [reflexivity|].
    rewrite Z2N.id by (apply nearest_scaled_nonneg; exact Hm).
    unfold printed. rewrite E.
    destruct s; cbn [andb signed]; [|reflexivity].
    destruct (is_zero m) eqn:Z; cbn [negb]; [|reflexivity].
    apply Qeq_bool_iff in Z. pose proof (printed_zero m Z) as P0.
    unfold printed in P0. rewrite E in P0. rewrite P0. reflexivity.
Qed.

(** [toFixed(1)] is monotone for the numeric order of its results. *)
Lemma toFixed1_mono (x y : Number) :
  canonical x -> canonical y -> num_le x y ->
  numeric_le (toFixed 1 x) (toFixed 1 y).
Proof.
  intros Cx Cy (Wx & Wy & H). unfold numeric_le.
  destruct x as [|s|s a], y as [|t|t b]; cbn [val] in H; try contradiction.
  - destruct s, t; cbn [Value_le] in H; try contradiction; exact I.
  - destruct s; cbn [Value_le] in H; try contradiction.
    destruct (toFixed1_value t b Wy Cy) as (q & -> & _). exact I.
  - destruct t; cbn [Value_le] in H; try contradiction.
    destruct (toFixed1_value s a Wx Cx) as (q & -> & _). exact I.
  - cbn [Value_le wf canonical] in *.
    destruct (toFixed1_value s a Wx Cx) as (q1 & -> & E1).
    destruct (toFixed1_value t b Wy Cy) as (q2 & -> & E2).
    cbn [Value_le]. rewrite E1, E2.
    pose proof (printed_nonneg a Cx Wx) as Pa.
    pose proof (printed_nonneg b Cy Wy) as Pb.
    destruct s, t; cbn [signed] in *.
    + assert (printed b <= printed a) by (apply printed_mono; [assumption..|lra]). lra.
    + lra.
    + assert (Za : a == 0) by lra. assert (Zb : b == 0) by lra.
      rewrite (printed_zero a Za), (printed_zero b Zb). discriminate.
    + apply printed_mono; assumption.
Qed.

End PrintedValue.

Section ExponentNotation.
Local Open Scope string_scope.

(** ** Exponent notation has no single fractional digit *)

Lemma one_fraction_digit_scientific (neg : bool) (c : Z) :
  (0 < c)%Z ->
  one_fraction_digit ((if neg then "-" else "") ++ scientific c) = false.
Proof.
  intro Hc. destruct (scientific_shape c Hc) as (c0 & b & mv & j & E & D0 & Db & _ & _).
  set (e := decimal (Z.of_nat (String.length b + j))) in *.
  assert (De : all_digits e = true) by apply all_digits_decimal.
  assert (Da : all_digits (String c0 "") = true) by (cbn; now rewrite D0).
  assert (Es : exists t, scientific c = String c0 t).
  { rewrite E. destruct b; cbn; eauto. }
  destruct Es as [t Et]. unfold one_fraction_digit.
  rewrite Et, (unsign_digits neg c0 t D0), <- Et, E. cbn [snd].
  destruct b as [|b0 b'].
  - change (String c0 "" ++ "e+" ++ e)
      with (String c0 "" ++ String "e" ("" ++ String "+" e)).
    rewrite (cut_skip "." "e" _ _ not_digit_point Da eq_refl).
    rewrite (cut_skip "." "+" "" e not_digit_point eq_refl eq_refl).
    rewrite (cut_digits_none "." e not_digit_point De). reflexivity.
  - change (String c0 "" ++ "." ++ String b0 b' ++ "e+" ++ e)
      with (String c0 "" ++ String "." (String b0 (b' ++ "e+" ++ e))).
    rewrite (cut_digits "." _ _ not_digit_point Da).
    destruct b'; reflexivity.
Qed.

(** [toFixed(1)] prints exactly one fractional digit exactly for the small
    Numbers. *)
Lemma toFixed1_format (x : Number) :
  wf x -> canonical x -> one_fraction_digit (toFixed 1 x) = small x.
Proof.
  intros W C. destruct x as [|[|]|s m]; try reflexivity.
  cbn [small wf canonical] in *.
  destruct (Qle_bool (inject_Z (10 ^ 21)) m) eqn:E; cbn [negb].
  - pose proof E as L. apply Qle_bool_iff in L.
    assert (Pm : (0 < m)%Q) by (eapply Qlt_le_trans; [|exact L]; reflexivity).
    pose proof (denotes_positive _ _ (printed_large_denotes m C L) Pm) as Hc.
    unfold toFixed. rewrite E. unfold toString_large.
    rewrite (is_zero_false m Pm), andb_true_r.
    apply one_fraction_digit_scientific. exact Hc.
  - apply (toFixed1_small (Finite s m)); [exact W|].
    cbn [small]. now rewrite E.
Qed.

End ExponentNotation.

(** * Properties of the calculator *)

(** ** The table *)

Lemma Region_eqb_eq (a b : Region) : Region_eqb a b = true -> a = b.
Proof. destruct a, b; intro H; try reflexivity; vm_compute in H; discriminate H. Qed.

Lemma Region_eqb_refl (a : Region) : Region_eqb a a = true.
Proof. destruct a; reflexivity. Qed.

Lemma lookup_regionalFactors (r : Region) :
  exists f, lookup regionalFactors r = Some f.
Proof. destruct r; eexists; reflexivity. Qed.

(** Every region is one of the seven of [regions]. *)
Lemma regions_complete (r : Region) : In r regions.
Proof. destruct r; simpl; tauto. Qed.

(** ** The calculator against the specification's wording *)

Lemma span_2023_2050 : subtract (lit 2050) (lit 2023) = lit 27.
Proof. vm_compute. reflexivity. Qed.

Lemma metrics_spec (table : list (Region * Factors.t)) (r : Region)
    (y : Number) (f : Factors.t) :
  lookup table r = Some f ->
  metrics table r y = Normal (spec_computeMetrics f y).
Proof.
  intro H. unfold metrics, spec_computeMetrics, field, bind.
  rewrite H, span_2023_2050. reflexivity.
Qed.

Lemma historical_spec (table : list (Region * Factors.t)) (r : Region)
    (f : Factors.t) :
  lookup table r = Some f ->
  getRegionalHistoricalData table r = Normal (spec_getHistoricalSeries f).
Proof.
  intro H. unfold getRegionalHistoricalData, field, bind.
  rewrite H. reflexivity.
Qed.

(** C2: for every region the series has the seven anchor years 1900, 1950,
    2000, 2023, 2030, 2040, 2050 in this order, each temperature is the base
    deviation of that anchor times the region's temperature factor, and the
    entry at index 3 is the year 2023 with 1.1 times the factor. *)
Theorem C2_historical_series (r : Region) :
  exists f series,
    lookup regionalFactors r = Some f /\
    getRegionalHistoricalData regionalFactors r = Normal series /\
    series = spec_getHistoricalSeries f /\
    List.length series = 7%nat /\
    map Point.year series =
      map (fun z => Finite false (inject_Z z)) [1900; 1950; 2000; 2023; 2030; 2040; 2050]%Z /\
    map Point.temperature series =
      map (fun d => multiply d (Factors.temperature f)) base_deviations /\
    nth_error series 3 =
      Some (Point.mk (Finite false 2023) (multiply (lit (11 # 10)) (Factors.temperature f))).
Proof.
  destruct (lookup_regionalFactors r) as [f Hf].
  exists f, (spec_getHistoricalSeries f).
  split; [exact Hf|]. split; [exact (historical_spec _ _ _ Hf)|].
  repeat split; reflexivity.
Qed.

(** C3: at the base year 2023 the temperature of every region is 1.1 times
    its factor, formatted to one decimal place, and the three other metrics
    are the string "0.0". *)
Theorem C3_base_year (r : Region) :
  exists f m,
    lookup regionalFactors r = Some f /\
    metrics regionalFactors r (of_Z 2023) = Normal m /\
    Metrics.temperature m = toFixed 1 (multiply (lit (11 # 10)) (Factors.temperature f)) /\
    Metrics.precipitation m = "0.0" /\
    Metrics.seaLevel m = "0.0" /\
    Metrics.extremeEvents m = "0.0".
Proof.
  destruct (lookup_regionalFactors r) as [f Hf].
  exists f, (spec_computeMetrics f (of_Z 2023)).
  split; [exact Hf|]. split; [exact (metrics_spec _ _ _ _ Hf)|].
  destruct r; vm_compute in Hf; injection Hf as <-;
    repeat split; vm_compute; reflexivity.
Qed.

(** C4: at 2050 the temperature of every region is 1.6 times its factor,
    formatted to one decimal place; for Global, whose factors are all 1, the
    four outputs are "1.6", "5.3", "26.3" and "32.0". *)
Theorem C4_target_year :
  (forall r : Region,
     exists f m,
       lookup regionalFactors r = Some f /\
       metrics regionalFactors r (of_Z 2050) = Normal m /\
       Metrics.temperature m =
         toFixed 1 (multiply (lit (16 # 10)) (Factors.temperature f))) /\
  lookup regionalFactors Global = Some (Factors.mk (lit 1) (lit 1) (lit 1) (lit 1)) /\
  metrics regionalFactors Global (of_Z 2050) =
    Normal (Metrics.mk "1.6" "5.3" "26.3" "32.0").
Proof.
  split; [|split; vm_compute; reflexivity].
  intro r. destruct (lookup_regionalFactors r) as [f Hf].
  exists f, (spec_computeMetrics f (of_Z 2050)).
  split; [exact Hf|]. split; [exact (metrics_spec _ _ _ _ Hf)|].
  destruct r; vm_compute in Hf; injection Hf as <-; vm_compute; reflexivity.
Qed.

(** C8: Africa has the temperature factor 1.4; the product 1.1 * 1.4 is the
    Number 1.54, and at 2023 the temperature of Africa is the string "1.5". *)
Theorem C8_africa_2023 :
  exists f m,
    lookup regionalFactors Africa = Some f /\
    Factors.temperature f = lit (14 # 10) /\
    multiply (lit (11 # 10)) (lit (14 # 10)) = lit (154 # 100) /\
    metrics regionalFactors Africa (of_Z 2023) = Normal m /\
    Metrics.temperature m = "1.5".
Proof.
  do 2 eexists. split; [reflexivity|].
  repeat split; vm_compute; reflexivity.
Qed.

(** ** Sessions of the component *)

Lemma sameValue_eq (x y : Number) : sameValue x y = true -> x = y.
Proof.
  destruct x as [|s|s [a b]], y as [|t|t [c d]]; simpl; intro H;
    try discriminate H; try reflexivity.
  - apply Bool.eqb_prop in H. now subst.
  - apply andb_prop in H. destruct H as [H Hd].
    apply andb_prop in H. destruct H as [Hs Hn].
    apply Bool.eqb_prop in Hs. apply Z.eqb_eq in Hn. apply Pos.eqb_eq in Hd.
    now subst.
Qed.

Lemma sameDeps_eq (a b : Number * Region) : sameDeps a b = true -> a = b.
Proof.
  destruct a as [x r], b as [y r']. unfold sameDeps. simpl. intro H.
  apply andb_prop in H. destruct H as [Hx Hr].
  apply sameValue_eq in Hx. apply Region_eqb_eq in Hr. now subst.
Qed.

(** A memo cell that satisfies [cell_ok] is transparent: [useMemo] returns
    what the function returns on the present dependencies. *)
Lemma useMemo_transparent {D A : Type} (same : D -> D -> bool)
    (f : D -> Completion A) (cell : option (D * A)) (deps : D) (a : A) :
  (forall d d', same d d' = true -> d = d') ->
  cell_ok f cell ->
  f deps = Normal a ->
  exists cell', useMemo same cell deps f = Normal (a, cell') /\ cell_ok f cell'.
Proof.
  intros Hsame Hok Hf. unfold useMemo.
  destruct cell as [[d a0]|]; simpl in Hok.
  - destruct (same d deps) eqn:E.
    + apply Hsame in E. subst d. rewrite Hf in Hok. injection Hok as ->.
      eexists. split; [reflexivity|]. simpl. exact Hf.
    + rewrite Hf. simpl. eexists. split; [reflexivity|]. simpl. exact Hf.
  - rewrite Hf. simpl. eexists. split; [reflexivity|]. simpl. exact Hf.
Qed.

(** The calculator never throws on the module's table. *)
Lemma metrics_total (r : Region) (y : Number) :
  exists m, metrics regionalFactors r y = Normal m.
Proof.
  destruct (lookup_regionalFactors r) as [f Hf].
  eexists. exact (metrics_spec _ _ _ _ Hf).
Qed.

Lemma historical_total (r : Region) :
  exists s, getRegionalHistoricalData regionalFactors r = Normal s.
Proof.
  destruct (lookup_regionalFactors r) as [f Hf].
  eexists. exact (historical_spec _ _ _ Hf).
Qed.

Lemma render_ok (w : World) :
  world_ok w ->
  exists v w', render w = Normal (v, w') /\ world_ok w' /\ shows v w' /\
               selectedRegion (hooks w') = selectedRegion (hooks w) /\
               selectedYear (hooks w') = selectedYear (hooks w).
Proof.
  intros (Ht & Hm & Hh). unfold render. rewrite Ht.
  destruct (metrics_total (selectedRegion (hooks w)) (selectedYear (hooks w))) as [m Em].
  destruct (historical_total (selectedRegion (hooks w))) as [s Es].
  destruct (useMemo_transparent sameDeps
              (fun d => metrics regionalFactors (snd d) (fst d))
              (metricsCell (hooks w)) (selectedYear (hooks w), selectedRegion (hooks w)) m
              sameDeps_eq Hm Em) as (c1 & E1 & Hc1).
  destruct (useMemo_transparent Region_eqb
              (getRegionalHistoricalData regionalFactors)
              (historicalCell (hooks w)) (selectedRegion (hooks w)) s
              Region_eqb_eq Hh Es) as (c2 & E2 & Hc2).
  rewrite E1. simpl. rewrite E2. simpl.
  do 2 eexists. split; [reflexivity|].
  repeat split; simpl; assumption.
Qed.

Lemma handle_ok (e : Event) (w : World) : world_ok w -> world_ok (handle e w).
Proof. intros (Ht & Hm & Hh). destruct e; repeat split; simpl; assumption. Qed.

Lemma run_ok (es : list Event) (v : View) (w : World) :
  world_ok w -> shows v w ->
  exists v' w', run es (v, w) = Normal (v', w') /\ world_ok w' /\ shows v' w'.
Proof.
  revert v w. induction es as [|e es IH]; intros v w Hw Hs.
  - exists v, w. simpl. auto.
  - simpl. destruct (render_ok _ (handle_ok e w Hw)) as (v1 & w1 & E & Hw1 & Hs1 & _).
    rewrite E. simpl. apply IH; assumption.
Qed.

Lemma mount_ok : world_ok mount.
Proof. repeat split. Qed.

Lemma session_ok (es : list Event) :
  exists v w, session es = Normal (v, w) /\ world_ok w /\ shows v w.
Proof.
  unfold session.
  destruct (render_ok _ mount_ok) as (v0 & w0 & E & Hw0 & Hs0 & _).
  rewrite E. simpl. apply run_ok; assumption.
Qed.

(** C6: the two operations return normally on every region and year (no
    exception); every rendering of every session, whatever selections and
    memoised values came before, shows exactly what the two operations
    return on the region and year selected at that moment; hence two
    renderings with the same region and year show identical strings and
    identical series. *)
Theorem C6_deterministic_and_total :
  (forall (r : Region) (y : Number), exists m, metrics regionalFactors r y = Normal m) /\
  (forall r : Region, exists s, getRegionalHistoricalData regionalFactors r = Normal s) /\
  (forall es : list Event,
     exists v w,
       session es = Normal (v, w) /\
       metrics regionalFactors (selectedRegion (hooks w)) (selectedYear (hooks w))
         = Normal (viewMetrics v) /\
       getRegionalHistoricalData regionalFactors (selectedRegion (hooks w))
         = Normal (viewHistoricalData v)) /\
  (forall (es1 es2 : list Event) (v1 v2 : View) (w1 w2 : World),
     session es1 = Normal (v1, w1) ->
     session es2 = Normal (v2, w2) ->
     selectedRegion (hooks w1) = selectedRegion (hooks w2) ->
     selectedYear (hooks w1) = selectedYear (hooks w2) ->
     v1 = v2).
Proof.
  split; [exact metrics_total|]. split; [exact historical_total|]. split.
  - intro es. destruct (session_ok es) as (v & w & E & _ & Hs1 & Hs2).
    exists v, w. auto.
  - intros es1 es2 v1 v2 w1 w2 E1 E2 Hr Hy.
    destruct (session_ok es1) as (v1' & w1' & E1' & _ & M1 & S1).
    destruct (session_ok es2) as (v2' & w2' & E2' & _ & M2 & S2).
    rewrite E1 in E1'. rewrite E2 in E2'.
    injection E1' as <- <-. injection E2' as <- <-.
    rewrite Hr, Hy in M1. rewrite Hr in S1.
    rewrite M1 in M2. rewrite S1 in S2.
    injection M2 as Hm. injection S2 as Hs.
    destruct v1, v2. simpl in *. now subst.
Qed.

(** C6 on two different sessions that both end at Africa and 2030. *)
Lemma C6_witness :
  exists v1 w1 v2 w2,
    session [SlideYear 2030; SelectRegion Africa] = Normal (v1, w1) /\
    session [SelectRegion Asia; SlideYear 2041; SelectRegion Africa; SlideYear 2030]
      = Normal (v2, w2) /\
    v1 = v2.
Proof.
  destruct (proj1 (proj2 (proj2 C6_deterministic_and_total))
              [SlideYear 2030; SelectRegion Africa]) as (v1 & w1 & E1 & _).
  destruct (proj1 (proj2 (proj2 C6_deterministic_and_total))
              [SelectRegion Asia; SlideYear 2041; SelectRegion Africa; SlideYear 2030])
    as (v2 & w2 & E2 & _).
  exists v1, w1, v2, w2. split; [exact E1|]. split; [exact E2|].
  apply (proj2 (proj2 (proj2 C6_deterministic_and_total)) _ _ v1 v2 w1 w2 E1 E2).
  - vm_compute in E1, E2.
    injection E1 as _ <-. injection E2 as _ <-. reflexivity.
  - vm_compute in E1, E2.
    injection E1 as _ <-. injection E2 as _ <-. reflexivity.
Defined.

(** C9: there are exactly seven regions, named Global, North America,
    Europe, Asia, Africa, South America and Oceania, all distinct, and no
    other; the table has exactly one entry for each of them, in that order;
    the four multipliers of every entry are strictly positive; and no
    rendering and no event handler of any session changes the table. *)
Theorem C9_table_invariant :
  List.length regions = 7%nat /\
  map region_name regions =
    ["Global"; "North America"; "Europe"; "Asia"; "Africa"; "South America"; "Oceania"] /\
  NoDup (map region_name regions) /\
  (forall r : Region, In r regions) /\
  map fst regionalFactors = regions /\
  (forall r : Region, entries regionalFactors r = 1%nat) /\
  forallb (fun e => positive_factors (snd e)) regionalFactors = true /\
  (forall es : list Event,
     exists v w, session es = Normal (v, w) /\ moduleTable w = regionalFactors).
Proof.
  split; [reflexivity|]. split; [reflexivity|]. split.
  { simpl. repeat constructor; simpl; intro H;
      repeat (destruct H as [H|H]; [discriminate H|]); exact H. }
  split; [exact regions_complete|]. split; [reflexivity|].
  split; [intro r; destruct r; reflexivity|].
  split; [vm_compute; reflexivity|].
  intro es. destruct (session_ok es) as (v & w & E & (Ht & _) & _).
  exists v, w. auto.
Qed.

(** C10: the series is determined by the temperature factor alone: whatever
    the tables and regions, two entries with equal temperature factors give
    equal series (the three other factors are never read); Europe and South
    America, both with temperature factor 1.1 and with different
    precipitation factors, have the same series. *)
Theorem C10_series_reads_temperature_only :
  (forall (t1 t2 : list (Region * Factors.t)) (r1 r2 : Region) (f1 f2 : Factors.t),
     lookup t1 r1 = Some f1 -> lookup t2 r2 = Some f2 ->
     Factors.temperature f1 = Factors.temperature f2 ->
     getRegionalHistoricalData t1 r1 = getRegionalHistoricalData t2 r2) /\
  (exists f1 f2,
     lookup regionalFactors Europe = Some f1 /\
     lookup regionalFactors SouthAmerica = Some f2 /\
     Factors.temperature f1 = lit (11 # 10) /\
     Factors.temperature f2 = lit (11 # 10) /\
     sameValue (Factors.precipitation f1) (Factors.precipitation f2) = false /\
     getRegionalHistoricalData regionalFactors Europe =
       getRegionalHistoricalData regionalFactors SouthAmerica).
Proof.
  assert (G : forall (t1 t2 : list (Region * Factors.t)) (r1 r2 : Region) (f1 f2 : Factors.t),
     lookup t1 r1 = Some f1 -> lookup t2 r2 = Some f2 ->
     Factors.temperature f1 = Factors.temperature f2 ->
     getRegionalHistoricalData t1 r1 = getRegionalHistoricalData t2 r2).
  { intros t1 t2 r1 r2 f1 f2 H1 H2 Ht.
    rewrite (historical_spec _ _ _ H1), (historical_spec _ _ _ H2).
    unfold spec_getHistoricalSeries. rewrite Ht. reflexivity. }
  split; [exact G|].
  do 2 eexists. split; [reflexivity|]. split; [reflexivity|].
  split; [vm_compute; reflexivity|]. split; [vm_compute; reflexivity|].
  split; [vm_compute; reflexivity|].
  eapply G; [reflexivity | reflexivity | vm_compute; reflexivity].
Qed.

(** The general part of C10 at Europe and South America. *)
Lemma C10_witness :
  getRegionalHistoricalData regionalFactors Europe =
  getRegionalHistoricalData regionalFactors SouthAmerica.
Proof.
  apply (proj1 C10_series_reads_temperature_only
           regionalFactors regionalFactors Europe SouthAmerica
           (Factors.mk (lit (11 # 10)) (lit (12 # 10)) (lit (9 # 10)) (lit (12 # 10)))
           (Factors.mk (lit (11 # 10)) (lit (15 # 10)) (lit (10 # 10)) (lit (12 # 10)))).
  - reflexivity.
  - reflexivity.
  - reflexivity.
Defined.

(** ** The format of the four metrics *)

(** The four formatted values have one fractional digit for every year
    between two years at which the four scaled values are small. *)
Lemma metrics_format (f : Factors.t) (lo hi y : Z) :
  positive_factors f = true ->
  (lo <= y <= hi)%Z ->
  small (multiply (base_temperature (of_Z lo)) (Factors.temperature f)) = true ->
  small (multiply (base_temperature (of_Z hi)) (Factors.temperature f)) = true ->
  small (multiply (base_precipitation (of_Z lo)) (Factors.precipitation f)) = true ->
  small (multiply (base_precipitation (of_Z hi)) (Factors.precipitation f)) = true ->
  small (multiply (base_seaLevel (of_Z lo)) (Factors.seaLevel f)) = true ->
  small (multiply (base_seaLevel (of_Z hi)) (Factors.seaLevel f)) = true ->
  small (multiply (base_extremeEvents (of_Z lo)) (Factors.extremeEvents f)) = true ->
  small (multiply (base_extremeEvents (of_Z hi)) (Factors.extremeEvents f)) = true ->
  let m := spec_computeMetrics f (of_Z y) in
  one_fraction_digit (Metrics.temperature m) = true /\
  one_fraction_digit (Metrics.precipitation m) = true /\
  one_fraction_digit (Metrics.seaLevel m) = true /\
  one_fraction_digit (Metrics.extremeEvents m) = true.
Proof.
  intros Hf Hy T0 T1 P0 P1 S0 S1 E0 E1 m.
  destruct (positive_factors_inv f Hf) as (Ft & Fp & Fs & Fe).
  unfold m, spec_computeMetrics. cbn [Metrics.temperature Metrics.precipitation
    Metrics.seaLevel Metrics.extremeEvents].
  repeat split; apply toFixed1_small; try apply multiply_wf.
  - apply (scaled_small base_temperature _ lo hi); auto using base_temperature_mono.
  - apply (scaled_small base_precipitation _ lo hi); auto using base_precipitation_mono.
  - apply (scaled_small base_seaLevel _ lo hi); auto using base_seaLevel_mono.
  - apply (scaled_small base_extremeEvents _ lo hi); auto using base_extremeEvents_mono.
Qed.

(** C1 (amended): for every region and every integer year the four values
    are the base interpolations with yearDiff = year - 2023, times the
    entries of the region's factors, formatted by toFixed(1); a formatted
    string has exactly one fractional digit exactly when the scaled value is
    finite with a magnitude below 10^21, which is the case of all four for
    every year from -10^20 to 10^20 (from 10^21 on, toFixed prints exponent
    notation). *)
Theorem C1_metrics_formula (r : Region) (y : Z) :
  exists f m,
    lookup regionalFactors r = Some f /\
    metrics regionalFactors r (of_Z y) = Normal m /\
    Metrics.temperature m =
      toFixed 1 (multiply (base_temperature (of_Z y)) (Factors.temperature f)) /\
    Metrics.precipitation m =
      toFixed 1 (multiply (base_precipitation (of_Z y)) (Factors.precipitation f)) /\
    Metrics.seaLevel m =
      toFixed 1 (multiply (base_seaLevel (of_Z y)) (Factors.seaLevel f)) /\
    Metrics.extremeEvents m =
      toFixed 1 (multiply (base_extremeEvents (of_Z y)) (Factors.extremeEvents f)) /\
    one_fraction_digit (Metrics.temperature m) =
      small (multiply (base_temperature (of_Z y)) (Factors.temperature f)) /\
    one_fraction_digit (Metrics.precipitation m) =
      small (multiply (base_precipitation (of_Z y)) (Factors.precipitation f)) /\
    one_fraction_digit (Metrics.seaLevel m) =
      small (multiply (base_seaLevel (of_Z y)) (Factors.seaLevel f)) /\
    one_fraction_digit (Metrics.extremeEvents m) =
      small (multiply (base_extremeEvents (of_Z y)) (Factors.extremeEvents f)) /\
    ((- 10 ^ 20 <= y <= 10 ^ 20)%Z ->
     one_fraction_digit (Metrics.temperature m) = true /\
     one_fraction_digit (Metrics.precipitation m) = true /\
     one_fraction_digit (Metrics.seaLevel m) = true /\
     one_fraction_digit (Metrics.extremeEvents m) = true).
Proof.
  destruct (lookup_regionalFactors r) as [f Hf].
  exists f, (spec_computeMetrics f (of_Z y)).
  split; [exact Hf|]. split; [exact (metrics_spec _ _ _ _ Hf)|].
  do 4 (split; [reflexivity|]).
  do 4 (split; [apply toFixed1_format; [apply multiply_wf | apply multiply_canonical]|]).
  intro Hy. apply (metrics_format f (- 10 ^ 20) (10 ^ 20) y);
    [exact (factors_positive r f Hf) | exact Hy | ..];
    destruct r; vm_compute in Hf; apply Some_inj in Hf; subst f;
    vm_compute; reflexivity.
Qed.

(** C1 at Asia and 2036, inside the range of the format. *)
Lemma C1_witness :
  exists m,
    metrics regionalFactors Asia (of_Z 2036) = Normal m /\
    one_fraction_digit (Metrics.temperature m) = true /\
    one_fraction_digit (Metrics.precipitation m) = true /\
    one_fraction_digit (Metrics.seaLevel m) = true /\
    one_fraction_digit (Metrics.extremeEvents m) = true.
Proof.
  destruct (C1_metrics_formula Asia 2036)
    as (f & m & _ & Hm & _ & _ & _ & _ & _ & _ & _ & _ & Hfmt).
  exists m. split; [exact Hm|]. apply Hfmt. lia.
Defined.

(** C1 as stated fails at Global and the year 10^22: the extreme events
    value is printed in exponent notation. *)
Lemma C1_counterexample :
  exists m,
    metrics regionalFactors Global (of_Z (10 ^ 22)) = Normal m /\
    Metrics.extremeEvents m = "1.185185185185185e+22" /\
    one_fraction_digit (Metrics.extremeEvents m) = false.
Proof. eexists. split; [reflexivity|]. split; vm_compute; reflexivity. Qed.

(** C7: a year outside [2023, 2050] is not rejected and not clamped: the
    call returns normally, with the same formulas as inside the range, and
    (for years that are Numbers, below 2^53 in magnitude) yearDiff is the
    exact difference year - 2023, negative or above 27. *)
Theorem C7_no_range_validation (r : Region) (y : Z) :
  (y < 2023 \/ 2050 < y)%Z ->
  exists f m,
    lookup regionalFactors r = Some f /\
    metrics regionalFactors r (of_Z y) = Normal m /\
    m = spec_computeMetrics f (of_Z y) /\
    ((Z.abs y < 2 ^ 53 - 2023)%Z ->
     yearDiff (of_Z y) = of_Z (y - 2023) /\ (y - 2023 < 0 \/ 27 < y - 2023)%Z).
Proof.
  intro Hy. destruct (lookup_regionalFactors r) as [f Hf].
  exists f, (spec_computeMetrics f (of_Z y)).
  split; [exact Hf|]. split; [exact (metrics_spec _ _ _ _ Hf)|].
  split; [reflexivity|].
  intro Hb. split; [exact (yearDiff_exact y Hb) | lia].
Qed.

(** C7 at the year 1900 for Global and at 2100 for Asia. *)
Lemma C7_witness :
  (exists m, metrics regionalFactors Global (of_Z 1900) = Normal m /\
             Metrics.temperature m = "-1.2" /\ Metrics.seaLevel m = "-119.8") /\
  (exists m, metrics regionalFactors Asia (of_Z 2100) = Normal m /\
             Metrics.temperature m = "3.3" /\ Metrics.seaLevel m = "90.0").
Proof.
  split.
  - destruct (C7_no_range_validation Global 1900) as (f & m & Hf & Hm & E & _); [lia|].
    exists m. split; [exact Hm|].
    vm_compute in Hf. apply Some_inj in Hf. subst f m. split; vm_compute; reflexivity.
  - destruct (C7_no_range_validation Asia 2100) as (f & m & Hf & Hm & E & _); [lia|].
    exists m. split; [exact Hm|].
    vm_compute in Hf. apply Some_inj in Hf. subst f m. split; vm_compute; reflexivity.
Defined.

(** ** Monotonicity of the temperature *)

(** C5: for a fixed region the formatted temperature, read as a number, is
    nondecreasing in the year, over all integer years. *)
Theorem C5_temperature_monotone (r : Region) (y1 y2 : Z) :
  (y1 <= y2)%Z ->
  exists m1 m2,
    metrics regionalFactors r (of_Z y1) = Normal m1 /\
    metrics regionalFactors r (of_Z y2) = Normal m2 /\
    numeric_le (Metrics.temperature m1) (Metrics.temperature m2).
Proof.
  intro H. destruct (lookup_regionalFactors r) as [f Hf].
  exists (spec_computeMetrics f (of_Z y1)), (spec_computeMetrics f (of_Z y2)).
  split; [exact (metrics_spec _ _ _ _ Hf)|].
  split; [exact (metrics_spec _ _ _ _ Hf)|].
  destruct (positive_factors_inv f (factors_positive r f Hf)) as (Ft & _).
  cbn [spec_computeMetrics Metrics.temperature].
  apply toFixed1_mono; try apply multiply_canonical.
  apply multiply_mono; [exact Ft|].
  apply base_temperature_mono, of_Z_mono, H.
Qed.

(** C5 at Africa, from the base year to 2050: "1.5" and "2.2". *)
Lemma C5_witness :
  exists m1 m2,
    metrics regionalFactors Africa (of_Z 2023) = Normal m1 /\
    metrics regionalFactors Africa (of_Z 2050) = Normal m2 /\
    numeric_le (Metrics.temperature m1) (Metrics.temperature m2).
Proof. apply (C5_temperature_monotone Africa 2023 2050). lia. Defined.

(** ** Further properties *)

(** The three other metrics are nondecreasing in the year as well. *)
Theorem other_metrics_monotone (r : Region) (y1 y2 : Z) :
  (y1 <= y2)%Z ->
  exists m1 m2,
    metrics regionalFactors r (of_Z y1) = Normal m1 /\
    metrics regionalFactors r (of_Z y2) = Normal m2 /\
    numeric_le (Metrics.precipitation m1) (Metrics.precipitation m2) /\
    numeric_le (Metrics.seaLevel m1) (Metrics.seaLevel m2) /\
    numeric_le (Metrics.extremeEvents m1) (Metrics.extremeEvents m2).
Proof.
  intro H. destruct (lookup_regionalFactors r) as [f Hf].
  exists (spec_computeMetrics f (of_Z y1)), (spec_computeMetrics f (of_Z y2)).
  split; [exact (metrics_spec _ _ _ _ Hf)|].
  split; [exact (metrics_spec _ _ _ _ Hf)|].
  destruct (positive_factors_inv f (factors_positive r f Hf)) as (_ & Fp & Fs & Fe).
  cbn [spec_computeMetrics Metrics.precipitation Metrics.seaLevel Metrics.extremeEvents].
  repeat split; apply toFixed1_mono; try apply multiply_canonical;
    apply multiply_mono; try assumption.
  - apply base_precipitation_mono, of_Z_mono, H.
  - apply base_seaLevel_mono, of_Z_mono, H.
  - apply base_extremeEvents_mono, of_Z_mono, H.
Qed.

(** The three other metrics of Oceania at 2030 and 2031. *)
Lemma other_metrics_monotone_witness :
  exists m1 m2,
    metrics regionalFactors Oceania (of_Z 2030) = Normal m1 /\
    metrics regionalFactors Oceania (of_Z 2031) = Normal m2 /\
    numeric_le (Metrics.precipitation m1) (Metrics.precipitation m2) /\
    numeric_le (Metrics.seaLevel m1) (Metrics.seaLevel m2) /\
    numeric_le (Metrics.extremeEvents m1) (Metrics.extremeEvents m2).
Proof. apply (other_metrics_monotone Oceania 2030 2031). lia. Defined.

(** The values are those of binary64 arithmetic, not of exact arithmetic:
    for South America at 2050 the exact product 27 * 5.3 / 27 * 1.5 is 7.95,
    which would print as 8.0, while the Number product lies just below and
    prints as 7.9. *)
Theorem precipitation_south_america_2050 :
  exists m,
    metrics regionalFactors SouthAmerica (of_Z 2050) = Normal m /\
    Metrics.precipitation m = "7.9" /\
    (27 * (53 # 10) / 27 * (15 # 10) == 795 # 100)%Q /\
    nearest_scaled 1 (795 # 100) = 80%Z /\
    multiply (base_precipitation (of_Z 2050)) (lit (15 # 10)) =
      Finite false (2237726064849715 # 281474976710656).
Proof.
  eexists. split; [reflexivity|].
  repeat split; vm_compute; reflexivity.
Qed.

(** * Properties of the page *)

(** ** [parseInt] and the year handler *)










(** ** A year that is no number *)





(** ** The values of the cards *)

Lemma plain_small (x : Number) : plain x = true -> small x = true.
Proof.
  destruct x as [| |s m]; try discriminate. cbn [plain small].
  intro H. apply andb_prop in H. tauto.
Qed.

(** Between a plain and a small Number every Number is plain. *)
Lemma plain_between (lo x hi : Number) :
  num_le lo x -> num_le x hi -> plain lo = true -> small hi = true -> plain x = true.
Proof.
  intros H1 H2 Pl Sh.
  pose proof (small_between lo x hi H1 H2 (plain_small lo Pl) Sh) as Sx.
  destruct H1 as (Wl & Wx & H1).
  destruct lo as [| |s0 m0]; try discriminate Pl.
  destruct x as [| |s m]; try discriminate Sx.
  cbn [plain small val Value_le wf] in *. rewrite Sx, andb_true_r.
  apply andb_prop in Pl. destruct Pl as [Pl _].
  destruct s; [|reflexivity]. cbn [negb orb].
  apply Qeq_bool_iff.
  assert (Z0 : (signed s0 m0 == 0 \/ 0 <= signed s0 m0)%Q).
  { destruct s0; cbn [negb orb signed] in *.
    - left. apply Qeq_bool_iff in Pl. rewrite Pl. reflexivity.
    - right. exact Wl. }
  cbn [signed] in H1. destruct Z0 as [Z0|Z0]; lra.
Qed.

Lemma toFixed1_plain (x : Number) :
  plain x = true ->
  exists a d,
    toFixed 1 x = a ++ String "." (String d "") /\
    all_digits a = true /\ a <> "" /\ is_digit d = true.
Proof.
  intro P. destruct x as [| |s m]; try discriminate P.
  cbn [plain] in P. apply andb_prop in P. destruct P as [Ps Pm].
  apply negb_true_iff in Pm.
  destruct (toFixed1_fixed s m Pm) as (a & d & E & Da & Na & Dd & _).
  exists a, d. split; [|auto].
  rewrite E. unfold sign_of.
  destruct s; [|reflexivity]. cbn [negb orb] in Ps. rewrite Ps. reflexivity.
Qed.

Lemma plain_card_value_shape (unit a : string) (d : ascii) :
  all_digits a = true -> a <> "" -> is_digit d = true ->
  plain_card_value unit ("+" ++ (a ++ String "." (String d "")) ++ unit) = true.
Proof.
  intros Da Na Dd.
  assert (E : "+" ++ (a ++ String "." (String d "")) ++ unit
              = String "+" (a ++ String "." (String d unit))).
  { cbn [append]. f_equal. rewrite string_app_assoc. reflexivity. }
  rewrite E. cbn [plain_card_value]. change (Ascii.eqb "+" "+") with true.
  rewrite (cut_digits "." _ _ not_digit_point Da), Da, Dd, String.eqb_refl.
  destruct a; [congruence|reflexivity].
Qed.

(** On the years of the slider the four scaled values are plain. *)
Lemma scaled_plain (base : Number -> Number) (f : Number) (y : Z) :
  (forall x x', num_le x x' -> num_le (base x) (base x')) ->
  is_positive f = true ->
  plain (multiply (base (of_Z 2023)) f) = true ->
  small (multiply (base (of_Z 2050)) f) = true ->
  (2023 <= y <= 2050)%Z ->
  plain (multiply (base (of_Z y)) f) = true.
Proof.
  intros Hb Hf Pl Sh [H1 H2].
  apply (plain_between (multiply (base (of_Z 2023)) f) _ (multiply (base (of_Z 2050)) f));
    try assumption; apply multiply_mono; try assumption; apply Hb; apply of_Z_mono;
    assumption.
Qed.

Lemma slider_metrics_plain (r : Region) (f : Factors.t) (y : Z) :
  lookup regionalFactors r = Some f -> (2023 <= y <= 2050)%Z ->
  plain (multiply (base_temperature (of_Z y)) (Factors.temperature f)) = true /\
  plain (multiply (base_precipitation (of_Z y)) (Factors.precipitation f)) = true /\
  plain (multiply (base_seaLevel (of_Z y)) (Factors.seaLevel f)) = true /\
  plain (multiply (base_extremeEvents (of_Z y)) (Factors.extremeEvents f)) = true.
Proof.
  intros Hf Hy.
  destruct (positive_factors_inv f (factors_positive r f Hf)) as (Ft & Fp & Fs & Fe).
  repeat split.
  - apply (scaled_plain base_temperature); auto using base_temperature_mono;
      destruct r; vm_compute in Hf; apply Some_inj in Hf; subst f; vm_compute; reflexivity.
  - apply (scaled_plain base_precipitation); auto using base_precipitation_mono;
      destruct r; vm_compute in Hf; apply Some_inj in Hf; subst f; vm_compute; reflexivity.
  - apply (scaled_plain base_seaLevel); auto using base_seaLevel_mono;
      destruct r; vm_compute in Hf; apply Some_inj in Hf; subst f; vm_compute; reflexivity.
  - apply (scaled_plain base_extremeEvents); auto using base_extremeEvents_mono;
      destruct r; vm_compute in Hf; apply Some_inj in Hf; subst f; vm_compute; reflexivity.
Qed.

(** The cards of the metrics of a slider year. *)
Lemma slider_cards (r : Region) (y : Z) (m : Metrics.t) :
  (2023 <= y <= 2050)%Z ->
  metrics regionalFactors r (of_Z y) = Normal m ->
  forallb (fun uc => plain_card_value (fst uc) (value (snd uc)))
          (combine card_units (metricCards m)) = true.
Proof.
  intros Hy Hm. destruct (lookup_regionalFactors r) as [f Hf].
  rewrite (metrics_spec _ _ _ _ Hf) in Hm.
  apply (f_equal (fun c => match c with Normal x => x | ThrowTypeError => m end)) in Hm.
  cbn in Hm. subst m.
  destruct (slider_metrics_plain r f y Hf Hy) as (Pt & Pp & Ps & Pe).
  destruct (toFixed1_plain _ Pt) as (a1 & d1 & E1 & A1 & N1 & D1).
  destruct (toFixed1_plain _ Pp) as (a2 & d2 & E2 & A2 & N2 & D2).
  destruct (toFixed1_plain _ Ps) as (a3 & d3 & E3 & A3 & N3 & D3).
  destruct (toFixed1_plain _ Pe) as (a4 & d4 & E4 & A4 & N4 & D4).
  unfold metricCards, card_units, spec_computeMetrics.
  cbn [Metrics.temperature Metrics.precipitation Metrics.seaLevel Metrics.extremeEvents
       combine forallb fst snd value].
  rewrite E1, E2, E3, E4.
  rewrite !plain_card_value_shape by assumption. reflexivity.
Qed.

Lemma handle_slider (e : Event) (w : World) :
  slider_event e -> slider_year w -> slider_year (handle e w).
Proof.
  intros He Hw. destruct e as [r|y]; cbn.
  - exact Hw.
  - exists y. split; [exact He | reflexivity].
Qed.

Lemma run_slider (es : list Event) (v : View) (w : World) :
  Forall slider_event es -> world_ok w -> shows v w -> slider_year w ->
  exists v' w', run es (v, w) = Normal (v', w') /\ world_ok w' /\ shows v' w' /\
                slider_year w'.
Proof.
  revert v w. induction es as [|e es IH]; intros v w Hes Hw Hs Hy.
  - exists v, w. simpl. auto.
  - inversion Hes as [|? ? He Hes']; subst. simpl.
    destruct (render_ok _ (handle_ok e w Hw)) as (v1 & w1 & E & Hw1 & Hs1 & _ & Ey).
    rewrite E. simpl. apply IH; try assumption.
    destruct (handle_slider e w He Hy) as (y & By & Eq).
    exists y. split; [exact By|]. rewrite Ey. exact Eq.
Qed.

(** In every session of the page (any regions, slider years from 2023 to
    2050) every rendering shows four card values of the form "+", digits, a
    point, one digit and the unit: no sign after the "+", no exponent. *)
Theorem slider_cards_plain (es : list Event) :
  Forall slider_event es ->
  exists v w,
    session es = Normal (v, w) /\
    forallb (fun uc => plain_card_value (fst uc) (value (snd uc)))
            (combine card_units (metricCards (viewMetrics v))) = true.
Proof.
  intro Hes. unfold session.
  destruct (render_ok _ mount_ok) as (v0 & w0 & E & Hw0 & Hs0 & _ & Ey).
  rewrite E. simpl.
  assert (Y0 : slider_year w0).
  { exists 2050%Z. split; [lia|]. rewrite Ey. reflexivity. }
  destruct (run_slider es v0 w0 Hes Hw0 Hs0 Y0) as (v & w & Er & _ & (M & _) & (y & By & Eq)).
  exists v, w. split; [exact Er|].
  rewrite Eq in M. exact (slider_cards _ y _ By M).
Qed.

(** A session that ends at Oceania and 2031. *)
Lemma slider_cards_plain_witness :
  exists v w,
    session [SlideYear 2024; SelectRegion Oceania; SlideYear 2031] = Normal (v, w) /\
    forallb (fun uc => plain_card_value (fst uc) (value (snd uc)))
            (combine card_units (metricCards (viewMetrics v))) = true.
Proof.
  apply (slider_cards_plain [SlideYear 2024; SelectRegion Oceania; SlideYear 2031]).
  repeat constructor; cbn; lia.
Defined.

(** ** The sign that follows the "+" of a card *)

Lemma negative_below (x hi : Number) :
  num_le x hi -> negative hi = true -> negative x = true.
Proof.
  intros (Wx & Wh & H) N.
  destruct hi as [|[|]|[|] m1]; try discriminate N;
    destruct x as [|[|]|s m]; cbn [val Value_le] in H; try contradiction;
    try reflexivity.
  cbn [negative wf andb] in *. apply negb_true_iff in N.
  assert (P1 : (0 < m1)%Q).
  { destruct (Qlt_le_dec 0 m1) as [L|L]; [exact L|exfalso].
    assert (E : (m1 == 0)%Q) by (apply Qle_antisym; assumption).
    apply Qeq_bool_iff in E. unfold is_zero in N. congruence. }
  destruct s; cbn [signed andb] in *.
  - apply negb_true_iff. apply is_zero_false. lra.
  - exfalso. lra.
Qed.

Lemma nonnegative_above (lo x : Number) :
  num_le lo x -> negative lo = false -> negative x = false.
Proof.
  intros (Wl & Wx & H) N.
  destruct lo as [|[|]|s0 m0]; try discriminate N;
    destruct x as [|[|]|s m]; cbn [val Value_le] in H; try contradiction;
    try reflexivity.
  cbn [negative wf] in *.
  destruct s; [|reflexivity]. cbn [andb]. apply negb_false_iff.
  apply Qeq_bool_iff.
  assert (L0 : (0 <= signed s0 m0)%Q).
  { destruct s0; cbn [andb signed] in *; [|exact Wl].
    apply negb_false_iff in N. apply Qeq_bool_iff in N. rewrite N. discriminate. }
  cbn [signed] in H. lra.
Qed.

(** [toFixed(1)] starts with "-" exactly for the Numbers below zero. *)
Lemma toFixed1_minus (x : Number) :
  wf x -> canonical x -> val x <> None ->
  exists c t, toFixed 1 x = String c t /\ Ascii.eqb c "-" = negative x.
Proof.
  intros W C V. destruct x as [|[|]|s m]; [exfalso; apply V; reflexivity|cbn; eauto..|].
  cbn [wf canonical negative] in *.
  (* the digits after the sign start with a digit *)
  assert (B : exists c0 t0, is_digit c0 = true /\
                toFixed 1 (Finite s m) = sign_of s m ++ String c0 t0).
  { destruct (Qle_bool (inject_Z (10 ^ 21)) m) eqn:E.
    - pose proof E as L. apply Qle_bool_iff in L.
      assert (Pm : (0 < m)%Q) by (eapply Qlt_le_trans; [|exact L]; reflexivity).
      pose proof (denotes_positive _ _ (printed_large_denotes m C L) Pm) as Hc.
      destruct (scientific_shape _ Hc) as (c0 & b & mv & j & Es & D0 & _).
      exists c0. unfold toFixed. rewrite E. fold (sign_of s m).
      unfold toString_large. rewrite Es. destruct b; cbn [append]; eauto.
    - destruct (toFixed1_fixed s m E) as (a & d & Et & Da & Na & _).
      destruct a as [|c0 a]; [congruence|].
      cbn [all_digits] in Da. apply andb_prop in Da.
      destruct Da as [D0 _]. exists c0. rewrite Et. cbn [append]. eauto. }
  destruct B as (c0 & t0 & D0 & E). rewrite E. unfold sign_of.
  destruct (s && negb (is_zero m))%bool; cbn [append].
  - eexists _, _. split; [reflexivity|reflexivity].
  - eexists _, _. split; [reflexivity|].
    exact (digit_neq "-" c0 not_digit_minus D0).
Qed.

Lemma prefix_plus_minus (c : ascii) (t unit : string) :
  String.prefix "+-" ("+" ++ String c t ++ unit) = Ascii.eqb c "-".
Proof.
  cbn [append String.prefix].
  destruct (ascii_dec "+" "+") as [_|N]; [|congruence].
  destruct (ascii_dec "-" c) as [<-|N].
  - destruct (t ++ unit); reflexivity.
  - symmetry. apply Ascii.eqb_neq. congruence.
Qed.

(** A scaled value is below zero exactly up to the year [T], when it is
    at [T] and is not at [T + 1]. *)
Lemma scaled_negative (base : Number -> Number) (f : Number) (T y : Z) (unit : string) :
  (forall x x', num_le x x' -> num_le (base x) (base x')) ->
  is_positive f = true ->
  negative (multiply (base (of_Z T)) f) = true ->
  negative (multiply (base (of_Z (T + 1))) f) = false ->
  String.prefix "+-" ("+" ++ toFixed 1 (multiply (base (of_Z y)) f) ++ unit)
    = (y <=? T)%Z.
Proof.
  intros Hb Hf NT NT1.
  assert (M : forall a b, (a <= b)%Z ->
            num_le (multiply (base (of_Z a)) f) (multiply (base (of_Z b)) f)).
  { intros a b H. apply multiply_mono; [exact Hf|]. apply Hb, of_Z_mono, H. }
  assert (V : val (multiply (base (of_Z y)) f) <> None).
  { destruct (M y y (Z.le_refl y)) as (_ & _ & H).
    destruct (val (multiply (base (of_Z y)) f)); [discriminate|contradiction]. }
  destruct (toFixed1_minus _ (multiply_wf _ _) (multiply_canonical _ _) V)
    as (c & t & E & S).
  rewrite E, prefix_plus_minus, S.
  destruct (Z.leb_spec y T) as [L|G].
  - exact (negative_below _ _ (M y T L) NT).
  - apply (nonnegative_above _ _ (M (T + 1)%Z y ltac:(lia)) NT1).
Qed.

(** Every card value is "+" followed by the formatted metric, so a metric
    below zero is shown as "+-...": for every region and every integer year
    the temperature card reads so exactly up to the year 1963, and the
    three other cards exactly up to 2022. *)
Theorem cards_plus_minus (r : Region) (y : Z) :
  exists m,
    metrics regionalFactors r (of_Z y) = Normal m /\
    map (fun c => String.prefix "+-" (value c)) (metricCards m) =
      [(y <=? 1963)%Z; (y <=? 2022)%Z; (y <=? 2022)%Z; (y <=? 2022)%Z].
Proof.
  destruct (lookup_regionalFactors r) as [f Hf].
  exists (spec_computeMetrics f (of_Z y)).
  split; [exact (metrics_spec _ _ _ _ Hf)|].
  destruct (positive_factors_inv f (factors_positive r f Hf)) as (Ft & Fp & Fs & Fe).
  unfold metricCards, spec_computeMetrics.
  cbn [map value Metrics.temperature Metrics.precipitation Metrics.seaLevel
       Metrics.extremeEvents].
  rewrite (scaled_negative base_temperature _ 1963 y);
    [|exact base_temperature_mono | exact Ft
     |destruct r; vm_compute in Hf; apply Some_inj in Hf; subst f; vm_compute; reflexivity..].
  rewrite (scaled_negative base_precipitation _ 2022 y);
    [|exact base_precipitation_mono | exact Fp
     |destruct r; vm_compute in Hf; apply Some_inj in Hf; subst f; vm_compute; reflexivity..].
  rewrite (scaled_negative base_seaLevel _ 2022 y);
    [|exact base_seaLevel_mono | exact Fs
     |destruct r; vm_compute in Hf; apply Some_inj in Hf; subst f; vm_compute; reflexivity..].
  rewrite (scaled_negative base_extremeEvents _ 2022 y);
    [|exact base_extremeEvents_mono | exact Fe
     |destruct r; vm_compute in Hf; apply Some_inj in Hf; subst f; vm_compute; reflexivity..].
  reflexivity.
Qed.

(** ** The series of the chart *)

(** Comparison of two Numbers given by their digits. *)
Ltac num_le_compute :=
  vm_compute; intuition discriminate.

Lemma base_deviations_sorted : Sorted num_le base_deviations.
Proof.
  unfold base_deviations.
  repeat (apply Sorted_cons; [|apply HdRel_cons; num_le_compute]).
  apply Sorted_cons; [apply Sorted_nil | apply HdRel_nil].
Qed.

Lemma multiply_sorted (c : Number) (l : list Number) :
  is_positive c = true -> Sorted num_le l ->
  Sorted num_le (map (fun d => multiply d c) l).
Proof.
  intros Hc H. induction H as [|a l Hl IH Hd]; cbn [map]; constructor.
  - exact IH.
  - destruct Hd as [|b l Hab]; cbn [map]; constructor.
    apply multiply_mono; assumption.
Qed.

Lemma multiply_zero (c : Number) :
  is_positive c = true -> multiply (lit 0) c = Finite false 0.
Proof. intro Hc. destruct (is_positive_inv c Hc) as (n & -> & _). reflexivity. Qed.

(** For every table entry with a positive temperature factor the
    temperatures of the series are nondecreasing along the anchor years
    (each is at most every later one), the point of 1950 is exactly 0 and
    the point of 1900 is not above it. *)
Theorem series_nondecreasing (table : list (Region * Factors.t)) (r : Region)
    (f : Factors.t) :
  lookup table r = Some f ->
  is_positive (Factors.temperature f) = true ->
  exists series,
    getRegionalHistoricalData table r = Normal series /\
    StronglySorted num_le (map Point.temperature series) /\
    nth_error (map Point.temperature series) 1 = Some (Finite false 0) /\
    (exists t, nth_error (map Point.temperature series) 0 = Some t /\
               num_le t (Finite false 0)).
Proof.
  intros Hf Hp. exists (spec_getHistoricalSeries f).
  split; [exact (historical_spec _ _ _ Hf)|].
  assert (E : map Point.temperature (spec_getHistoricalSeries f)
              = map (fun d => multiply d (Factors.temperature f)) base_deviations)
    by reflexivity.
  rewrite E.
  pose proof (multiply_sorted _ _ Hp base_deviations_sorted) as S.
  split.
  - apply Sorted_StronglySorted; [|exact S].
    intros x y z. apply num_le_trans.
  - cbn [base_deviations map nth_error]. rewrite (multiply_zero _ Hp).
    split; [reflexivity|]. eexists. split; [reflexivity|].
    rewrite <- (multiply_zero _ Hp). apply multiply_mono; [exact Hp|].
    num_le_compute.
Qed.

(** The series of Asia. *)
Lemma series_nondecreasing_witness :
  exists series,
    getRegionalHistoricalData regionalFactors Asia = Normal series /\
    StronglySorted num_le (map Point.temperature series) /\
    nth_error (map Point.temperature series) 1 = Some (Finite false 0) /\
    (exists t, nth_error (map Point.temperature series) 0 = Some t /\
               num_le t (Finite false 0)).
Proof.
  apply (series_nondecreasing regionalFactors Asia
           (Factors.mk (lit (13 # 10)) (lit (14 # 10)) (lit (12 # 10)) (lit (13 # 10))));
    reflexivity.
Defined.

(** ** The chart against the cards *)

Lemma num_lt_compute (x y : Number) :
  wf x -> wf y ->
  match val x, val y with
  | Some (VFinite p), Some (VFinite q) => Qlt p q
  | _, _ => False
  end ->
  num_lt x y.
Proof.
  intros Wx Wy H. unfold num_lt, num_le.
  destruct (val x) as [[?|p]|]; try contradiction.
  destruct (val y) as [[?|q]|]; try contradiction.
  cbn [Value_le]. split.
  - repeat split; try assumption. apply Qlt_le_weak. exact H.
  - intros (_ & _ & C). apply (Qlt_not_le _ _ H C).
Qed.

(** The projected points of the chart are not the interpolation behind the
    temperature card: for every region they coincide at 2023 and at 2050,
    but the point of 2030 lies strictly above the value for 2030 and the
    point of 2040 strictly below the value for 2040 (for Global the card of
    2030 reads 1.2 where the chart shows 1.3). *)
Theorem chart_differs_from_cards (r : Region) :
  exists f p2023 p2030 p2040 p2050,
    lookup regionalFactors r = Some f /\
    getRegionalHistoricalData regionalFactors r =
      Normal [ Point.mk (Finite false 1900) (multiply (unaryMinus (lit (2 # 10)))
                                               (Factors.temperature f));
               Point.mk (Finite false 1950) (Finite false 0);
               Point.mk (Finite false 2000) (multiply (lit (5 # 10)) (Factors.temperature f));
               Point.mk (Finite false 2023) p2023;
               Point.mk (Finite false 2030) p2030;
               Point.mk (Finite false 2040) p2040;
               Point.mk (Finite false 2050) p2050 ] /\
    p2023 = multiply (base_temperature (of_Z 2023)) (Factors.temperature f) /\
    p2050 = multiply (base_temperature (of_Z 2050)) (Factors.temperature f) /\
    num_lt (multiply (base_temperature (of_Z 2030)) (Factors.temperature f)) p2030 /\
    num_lt p2040 (multiply (base_temperature (of_Z 2040)) (Factors.temperature f)) /\
    (r = Global ->
     toFixed 1 (multiply (base_temperature (of_Z 2030)) (Factors.temperature f)) = "1.2" /\
     toFixed 1 p2030 = "1.3").
Proof.
  destruct (lookup_regionalFactors r) as [f Hf].
  exists f. do 4 eexists. split; [exact Hf|].
  split; [rewrite (historical_spec _ _ _ Hf); destruct r; vm_compute in Hf;
          apply Some_inj in Hf; subst f; reflexivity|].
  destruct r; vm_compute in Hf; apply Some_inj in Hf; subst f;
    (split; [vm_compute; reflexivity|]);
    (split; [vm_compute; reflexivity|]);
    (split; [apply num_lt_compute; [apply multiply_wf..|vm_compute; reflexivity]|]);
    (split; [apply num_lt_compute; [apply multiply_wf..|vm_compute; reflexivity]|]);
    intro E; try discriminate E; split; vm_compute; reflexivity.
Qed.

(** ** The regions against each other *)

(** A value that is not below zero times a larger positive factor is not
    smaller. *)
Lemma multiply_mono_r (x f g : Number) :
  num_le (Finite false 0) x ->
  is_positive f = true -> is_positive g = true -> num_le f g ->
  num_le (multiply x f) (multiply x g).
Proof.
  intros (_ & Wx & Hx) Hf Hg (_ & _ & H).
  destruct (is_positive_inv f Hf) as (n & -> & Pn).
  destruct (is_positive_inv g Hg) as (n' & -> & Pn').
  cbn [val Value_le signed] in H.
  destruct x as [|[|]|s m]; cbn [val Value_le] in Hx; try contradiction.
  - cbn [multiply]. rewrite (is_zero_false n Pn), (is_zero_false n' Pn').
    repeat split; exact I.
  - cbn [multiply wf signed] in *. rewrite xorb_false_r.
    apply round_signed_mono.
    + apply Qmult_le_0_compat; [exact Wx | apply Qlt_le_weak; exact Pn].
    + apply Qmult_le_0_compat; [exact Wx | apply Qlt_le_weak; exact Pn'].
    + destruct s; cbn [signed] in *; nra.
Qed.

Lemma factor_order (base : Number -> Number) (y : Z) (f g : Number) :
  (forall x x', num_le x x' -> num_le (base x) (base x')) ->
  num_le (Finite false 0) (base (of_Z 2023)) ->
  (2023 <= y)%Z ->
  is_positive f = true -> is_positive g = true -> num_le f g ->
  numeric_le (toFixed 1 (multiply (base (of_Z y)) f))
             (toFixed 1 (multiply (base (of_Z y)) g)).
Proof.
  intros Hb H0 Hy Hf Hg Hfg.
  apply toFixed1_mono; try apply multiply_canonical.
  apply multiply_mono_r; try assumption.
  eapply num_le_trans; [exact H0|]. apply Hb, of_Z_mono, Hy.
Qed.

(** The metrics of a region on the module's table. *)
Lemma metrics_of (r : Region) (y : Z) :
  exists f,
    lookup regionalFactors r = Some f /\ positive_factors f = true /\
    metrics regionalFactors r (of_Z y) = Normal (spec_computeMetrics f (of_Z y)).
Proof.
  destruct (lookup_regionalFactors r) as [f Hf]. exists f.
  split; [exact Hf|]. split; [exact (factors_positive r f Hf)|].
  exact (metrics_spec _ _ _ _ Hf).
Qed.

(** The factors of the module's table against each other. *)
Lemma factor_bounds (r : Region) (f fg fa fs fn fo : Factors.t) :
  lookup regionalFactors r = Some f ->
  lookup regionalFactors Global = Some fg ->
  lookup regionalFactors Africa = Some fa ->
  lookup regionalFactors SouthAmerica = Some fs ->
  lookup regionalFactors NorthAmerica = Some fn ->
  lookup regionalFactors Oceania = Some fo ->
  (num_le (Factors.temperature fg) (Factors.temperature f) /\
   num_le (Factors.temperature f) (Factors.temperature fa)) /\
  (num_le (Factors.precipitation fa) (Factors.precipitation f) /\
   num_le (Factors.precipitation f) (Factors.precipitation fs)) /\
  (num_le (Factors.seaLevel fn) (Factors.seaLevel f) /\
   num_le (Factors.seaLevel f) (Factors.seaLevel fo)) /\
  (num_le (Factors.extremeEvents fg) (Factors.extremeEvents f) /\
   num_le (Factors.extremeEvents f) (Factors.extremeEvents fa)).
Proof.
  intros Hf Hg Ha Hs Hn Ho.
  vm_compute in Hg, Ha, Hs, Hn, Ho.
  apply Some_inj in Hg, Ha, Hs, Hn, Ho. subst fg fa fs fn fo.
  destruct r; vm_compute in Hf; apply Some_inj in Hf; subst f;
    vm_compute; intuition discriminate.
Qed.

(** From the base year on, for every year and every region: the
    temperature and the extreme events lie between those of Global and of
    Africa, the precipitation between Africa and South America, the sea
    level between North America and Oceania. *)
Theorem region_extremes (r : Region) (y : Z) :
  (2023 <= y)%Z ->
  exists m global africa southAmerica northAmerica oceania,
    metrics regionalFactors r (of_Z y) = Normal m /\
    metrics regionalFactors Global (of_Z y) = Normal global /\
    metrics regionalFactors Africa (of_Z y) = Normal africa /\
    metrics regionalFactors SouthAmerica (of_Z y) = Normal southAmerica /\
    metrics regionalFactors NorthAmerica (of_Z y) = Normal northAmerica /\
    metrics regionalFactors Oceania (of_Z y) = Normal oceania /\
    numeric_le (Metrics.temperature global) (Metrics.temperature m) /\
    numeric_le (Metrics.temperature m) (Metrics.temperature africa) /\
    numeric_le (Metrics.precipitation africa) (Metrics.precipitation m) /\
    numeric_le (Metrics.precipitation m) (Metrics.precipitation southAmerica) /\
    numeric_le (Metrics.seaLevel northAmerica) (Metrics.seaLevel m) /\
    numeric_le (Metrics.seaLevel m) (Metrics.seaLevel oceania) /\
    numeric_le (Metrics.extremeEvents global) (Metrics.extremeEvents m) /\
    numeric_le (Metrics.extremeEvents m) (Metrics.extremeEvents africa).
Proof.
  intro Hy.
  destruct (metrics_of r y) as (f & Hf & Pf & Em).
  destruct (metrics_of Global y) as (fg & Hg & Pg & Eg).
  destruct (metrics_of Africa y) as (fa & Ha & Pa & Ea).
  destruct (metrics_of SouthAmerica y) as (fs & Hs & Ps & Es).
  destruct (metrics_of NorthAmerica y) as (fn & Hn & Pn & En).
  destruct (metrics_of Oceania y) as (fo & Ho & Po & Eo).
  do 6 eexists. do 6 (split; [eassumption|]).
  destruct (factor_bounds r f fg fa fs fn fo Hf Hg Ha Hs Hn Ho)
    as ((T1 & T2) & (P1 & P2) & (L1 & L2) & (X1 & X2)).
  destruct (positive_factors_inv _ Pf) as (F1 & F2 & F3 & F4).
  destruct (positive_factors_inv _ Pg) as (G1 & _ & _ & G4).
  destruct (positive_factors_inv _ Pa) as (A1 & A2 & _ & A4).
  destruct (positive_factors_inv _ Ps) as (_ & S2 & _ & _).
  destruct (positive_factors_inv _ Pn) as (_ & _ & N3 & _).
  destruct (positive_factors_inv _ Po) as (_ & _ & O3 & _).
  assert (B1 : num_le (Finite false 0) (base_temperature (of_Z 2023)))
    by (vm_compute; intuition discriminate).
  assert (B2 : num_le (Finite false 0) (base_precipitation (of_Z 2023)))
    by (vm_compute; intuition discriminate).
  assert (B3 : num_le (Finite false 0) (base_seaLevel (of_Z 2023)))
    by (vm_compute; intuition discriminate).
  assert (B4 : num_le (Finite false 0) (base_extremeEvents (of_Z 2023)))
    by (vm_compute; intuition discriminate).
  cbn [spec_computeMetrics Metrics.temperature Metrics.precipitation
       Metrics.seaLevel Metrics.extremeEvents].
  split; [apply (factor_order base_temperature); auto using base_temperature_mono|].
  split; [apply (factor_order base_temperature); auto using base_temperature_mono|].
  split; [apply (factor_order base_precipitation); auto using base_precipitation_mono|].
  split; [apply (factor_order base_precipitation); auto using base_precipitation_mono|].
  split; [apply (factor_order base_seaLevel); auto using base_seaLevel_mono|].
  split; [apply (factor_order base_seaLevel); auto using base_seaLevel_mono|].
  split; [apply (factor_order base_extremeEvents); auto using base_extremeEvents_mono|].
  apply (factor_order base_extremeEvents); auto using base_extremeEvents_mono.
Qed.

(** Europe in 2040. *)
Lemma region_extremes_witness :
  exists m global africa,
    metrics regionalFactors Europe (of_Z 2040) = Normal m /\
    metrics regionalFactors Global (of_Z 2040) = Normal global /\
    metrics regionalFactors Africa (of_Z 2040) = Normal africa /\
    numeric_le (Metrics.temperature global) (Metrics.temperature m) /\
    numeric_le (Metrics.temperature m) (Metrics.temperature africa).
Proof.
  destruct (region_extremes Europe 2040)
    as (m & g & a & s & n & o & Em & Eg & Ea & _ & _ & _ & T1 & T2 & _); [lia|].
  exists m, g, a. auto.
Defined.

(** ** Rendering again *)

Lemma sameValue_refl (x : Number) : sameValue x x = true.
Proof.
  destruct x as [|s|s m]; cbn [sameValue]; [reflexivity| |].
  - apply Bool.eqb_reflx.
  - rewrite Bool.eqb_reflx, Z.eqb_refl, Pos.eqb_refl. reflexivity.
Qed.

Lemma sameDeps_refl (d : Number * Region) : sameDeps d d = true.
Proof. unfold sameDeps. rewrite sameValue_refl, Region_eqb_refl. reflexivity. Qed.

(** After [useMemo] returned, the cell answers the same dependencies from
    what it keeps. *)
Lemma useMemo_again {D A : Type} (same : D -> D -> bool)
    (f : D -> Completion A) (cell cell' : option (D * A)) (deps : D) (a : A) :
  (forall d, same d d = true) ->
  useMemo same cell deps f = Normal (a, cell') ->
  cell' = cell \/ cell' = Some (deps, a).
Proof.
  intros Hrefl. unfold useMemo.
  assert (C : bind (f deps) (fun a0 => Normal (a0, Some (deps, a0))) = Normal (a, cell')
              -> cell' = Some (deps, a)).
  { destruct (f deps) as [a0|]; cbn [bind]; intro H; [|discriminate H].
    injection H as <- <-. reflexivity. }
  destruct cell as [[d a0]|]; [|intro H; right; exact (C H)].
  destruct (same d deps); [|intro H; right; exact (C H)].
  intro H. injection H as <- <-. left. reflexivity.
Qed.

Lemma useMemo_hit {D A : Type} (same : D -> D -> bool)
    (f : D -> Completion A) (cell cell' : option (D * A)) (deps : D) (a : A) :
  (forall d, same d d = true) ->
  useMemo same cell deps f = Normal (a, cell') ->
  useMemo same cell' deps f = Normal (a, cell').
Proof.
  intros Hrefl H.
  destruct (useMemo_again same f cell cell' deps a Hrefl H) as [-> | ->].
  - exact H.
  - unfold useMemo. rewrite Hrefl. reflexivity.
Qed.

Lemma bind_Normal {A B : Type} (c : Completion A) (k : A -> Completion B) (b : B) :
  bind c k = Normal b -> exists a, c = Normal a /\ k a = Normal b.
Proof. destruct c as [a|]; cbn [bind]; intro H; [eauto | discriminate H]. Qed.

Lemma Normal_inj {A : Type} (a b : A) : Normal a = Normal b -> a = b.
Proof. intro H. injection H as ->. reflexivity. Qed.

(** A rendering that follows a rendering with no event in between computes
    nothing anew: it shows the same view and leaves the hooks as they are,
    whatever the table, the selection and the cells were before (the
    dependencies are compared by [Object.is], under which NaN is the same
    as NaN). *)
Theorem render_idempotent (w w' : World) (v : View) :
  render w = Normal (v, w') -> render w' = Normal (v, w').
Proof.
  unfold render. intro H.
  apply bind_Normal in H. destruct H as ([m c1] & E1 & H).
  apply bind_Normal in H. destruct H as ([s c2] & E2 & H).
  apply Normal_inj in H. cbn [fst snd] in H.
  apply (useMemo_hit sameDeps _ _ _ _ _ sameDeps_refl) in E1.
  apply (useMemo_hit Region_eqb _ _ _ _ _ Region_eqb_refl) in E2.
  injection H as <- <-.
  cbn [hooks moduleTable selectedYear selectedRegion metricsCell historicalCell].
  rewrite E1. cbn [bind]. rewrite E2. reflexivity.
Qed.

(** The first rendering and the one after it. *)
Lemma render_idempotent_witness :
  exists v w, render mount = Normal (v, w) /\ render w = Normal (v, w).
Proof.
  destruct (render_ok mount mount_ok) as (v & w & E & _).
  exists v, w. split; [exact E | exact (render_idempotent mount w v E)].
Defined.

(** ** The application shell *)

Lemma render_app_shown (t : NavTarget) (d : option World) :
  (forall w, d = Some w -> world_ok w) ->
  exists v st, render_app (mkAppState (section_key t) d) = Normal (v, st) /\
               app_shown t v st.
Proof.
  intro Hd. unfold render_app. cbn [activeSection dashboardState].
  destruct t; cbn [section_key].
  - assert (Hw : world_ok (match d with Some w => w | None => mount end)).
    { destruct d as [w|]; [apply Hd; reflexivity | exact mount_ok]. }
    destruct (render_ok _ Hw) as (dv & w' & E & Hw' & Hs & _).
    change (String.eqb "dashboard" "dashboard") with true. cbv iota.
    rewrite E. cbn [bind fst snd].
    do 2 eexists. split; [reflexivity|].
    split; [reflexivity|]. split; [reflexivity|].
    exists dv, w'. split; [reflexivity|]. split; [reflexivity|]. split; assumption.
  - do 2 eexists. split; [reflexivity|]. repeat split.
  - do 2 eexists. split; [reflexivity|]. repeat split.
Qed.

Lemma app_shown_ready (t : NavTarget) (v : AppView) (st : AppState) :
  app_shown t v st -> app_ready st.
Proof.
  intros [_ H] w Hw. destruct t.
  - destruct H as (_ & dv & w0 & _ & E & Hok & _). congruence.
  - destruct H as (_ & _ & E). congruence.
  - destruct H as (_ & _ & E). congruence.
Qed.

Lemma current_section_snoc (es : list AppEvent) (e : AppEvent) :
  current_section (es ++ [e]) =
  match e with Click t => t | OnDashboard _ => current_section es end.
Proof. unfold current_section. rewrite fold_left_app. reflexivity. Qed.

Lemma run_app_app (es es' : list AppEvent) (vs : AppView * AppState) :
  run_app (es ++ es') vs = bind (run_app es vs) (run_app es').
Proof.
  revert vs. induction es as [|e es IH]; intro vs; [reflexivity|].
  cbn [app run_app].
  destruct (render_app (handle_app e (snd vs))) as [vs'|]; cbn [bind];
    [apply IH | reflexivity].
Qed.

Lemma session_app_app (es es' : list AppEvent) :
  session_app (es ++ es') = bind (session_app es) (run_app es').
Proof.
  unfold session_app.
  destruct (render_app mount_app) as [vs|]; cbn [bind];
    [apply run_app_app | reflexivity].
Qed.

Lemma step_app_shown (e : AppEvent) (t : NavTarget) (v : AppView) (st : AppState) :
  app_shown t v st ->
  exists v' st',
    render_app (handle_app e st) = Normal (v', st') /\
    app_shown (match e with Click t' => t' | OnDashboard _ => t end) v' st'.
Proof.
  intro H. pose proof (app_shown_ready t v st H) as R. destruct H as [Ea _].
  destruct e as [t'|e]; cbn [handle_app].
  - apply render_app_shown. exact R.
  - rewrite Ea. apply render_app_shown.
    intros w Hw. destruct (dashboardState st) as [w0|] eqn:Ed; [|discriminate Hw].
    apply Some_inj in Hw. subst w. apply handle_ok, R. exact Ed.
Qed.

Lemma session_app_shown (es : list AppEvent) :
  exists v st, session_app es = Normal (v, st) /\ app_shown (current_section es) v st.
Proof.
  induction es as [|e es IH] using rev_ind.
  - unfold session_app.
    destruct (render_app_shown NavDashboard None) as (v & st & E & H);
      [discriminate|].
    change (mkAppState (section_key NavDashboard) None) with mount_app in E.
    rewrite E. exists v, st. split; [reflexivity | exact H].
  - destruct IH as (v & st & E & H).
    rewrite session_app_app, E. cbn [bind run_app snd].
    destruct (step_app_shown e _ v st H) as (v' & st' & E' & H').
    rewrite E'. cbn [bind]. exists v', st'. split; [reflexivity|].
    rewrite current_section_snoc. exact H'.
Qed.

(** Every session of clicks and dashboard events renders without an
    exception; after it, the active section is the target of the last click
    (the dashboard when there was none), exactly the NavItem of that section
    is active, [<main>] holds exactly that section, and the dashboard has
    hooks exactly while it is the active section, in which case it shows
    what the calculator returns on its selection. *)
Theorem app_one_section (es : list AppEvent) :
  exists v st,
    session_app es = Normal (v, st) /\
    activeSection st = section_key (current_section es) /\
    match current_section es with
    | NavDashboard =>
        map active (nav v) = [true; false; false] /\
        exists dv w, mainSections v = [SectionDashboard dv] /\
                     dashboardState st = Some w /\ shows dv w
    | NavAbout =>
        map active (nav v) = [false; true; false] /\
        mainSections v = [SectionAbout] /\ dashboardState st = None
    | NavResources =>
        map active (nav v) = [false; false; true] /\
        mainSections v = [SectionResources] /\ dashboardState st = None
    end.
Proof.
  destruct (session_app_shown es) as (v & st & E & Ha & H).
  exists v, st. split; [exact E|]. split; [exact Ha|].
  destruct (current_section es); try exact H.
  destruct H as (Hn & dv & w & Hm & Hd & _ & Hs). split; [exact Hn|].
  exists dv, w. auto.
Qed.

(** The events of the dashboard, sent through [App] while the dashboard is
    the active section, are the events of the dashboard alone. *)
Lemma run_app_dashboard (ds : list Event) (av : AppView) (dv : View) (w : World) :
  world_ok w ->
  mainSections av = [SectionDashboard dv] ->
  exists v' dv' w',
    run ds (dv, w) = Normal (dv', w') /\
    run_app (map OnDashboard ds) (av, mkAppState "dashboard" (Some w))
      = Normal (v', mkAppState "dashboard" (Some w')) /\
    mainSections v' = [SectionDashboard dv'].
Proof.
  revert av dv w. induction ds as [|e ds IH]; intros av dv w Hw Hm.
  - exists av, dv, w. repeat split. exact Hm.
  - cbn [map run run_app snd handle_app activeSection dashboardState].
    destruct (render_ok _ (handle_ok e w Hw)) as (dv1 & w1 & E & Hw1 & _).
    unfold render_app at 1. cbn [activeSection dashboardState].
    change (String.eqb "dashboard" "dashboard") with true. cbv iota.
    rewrite E. cbn [bind fst snd].
    change (String.eqb "dashboard" "about") with false.
    change (String.eqb "dashboard" "resources") with false. cbv iota.
    apply IH; [exact Hw1 | reflexivity].
Qed.

Lemma mount_app_dashboard (d : option World) (dv : View) (w : World) :
  render (match d with Some w0 => w0 | None => mount end) = Normal (dv, w) ->
  exists av,
    render_app (mkAppState "dashboard" d)
      = Normal (av, mkAppState "dashboard" (Some w)) /\
    mainSections av = [SectionDashboard dv].
Proof.
  intro E. unfold render_app. cbn [activeSection dashboardState].
  change (String.eqb "dashboard" "dashboard") with true. cbv iota.
  rewrite E. cbn [bind fst snd]. eexists. split; reflexivity.
Qed.

(** With no click, [App] shows after the events of the dashboard what the
    dashboard alone shows after them. *)
Theorem dashboard_in_app (ds : list Event) :
  exists v st dv w,
    session_app (map OnDashboard ds) = Normal (v, st) /\
    session ds = Normal (dv, w) /\
    mainSections v = [SectionDashboard dv] /\
    dashboardState st = Some w.
Proof.
  unfold session_app, session.
  destruct (render_ok mount mount_ok) as (dv0 & w0 & E & Hw0 & _).
  destruct (mount_app_dashboard None dv0 w0 E) as (av & Ea & Hm).
  change (mkAppState "dashboard" None) with mount_app in Ea.
  rewrite Ea, E. cbn [bind].
  destruct (run_app_dashboard ds av dv0 w0 Hw0 Hm) as (v' & dv' & w' & R & Ra & Hm').
  rewrite R, Ra. do 4 eexists. repeat split. exact Hm'.
Qed.

(** Leaving the dashboard discards its state: when a session has left the
    dashboard, a click on Dashboard mounts it afresh, and from there on it
    shows what the dashboard shows from its initial state (Global, 2050),
    whatever was selected before. *)
Theorem dashboard_remount (es : list AppEvent) (ds : list Event) :
  current_section es <> NavDashboard ->
  exists v st dv w,
    session_app (es ++ Click NavDashboard :: map OnDashboard ds) = Normal (v, st) /\
    session ds = Normal (dv, w) /\
    mainSections v = [SectionDashboard dv] /\
    dashboardState st = Some w.
Proof.
  intro Hc.
  destruct (session_app_shown es) as (v0 & st0 & E0 & Ha & H).
  assert (Hd : dashboardState st0 = None).
  { destruct (current_section es); [contradiction Hc; reflexivity| |];
      apply H. }
  rewrite session_app_app, E0.
  cbn [bind run_app snd handle_app section_key]. rewrite Hd.
  unfold session.
  destruct (render_ok mount mount_ok) as (dv0 & w0 & E & Hw0 & _).
  destruct (mount_app_dashboard None dv0 w0 E) as (av & Ea & Hm).
  rewrite Ea, E. cbn [bind].
  destruct (run_app_dashboard ds av dv0 w0 Hw0 Hm) as (v' & dv' & w' & R & Ra & Hm').
  rewrite R, Ra. do 4 eexists. repeat split. exact Hm'.
Qed.

(** Africa and 2030 are selected, About is visited, Dashboard is clicked:
    the dashboard shows its initial view. *)
Lemma dashboard_remount_witness :
  exists v st dv w,
    session_app ([OnDashboard (SelectRegion Africa); OnDashboard (SlideYear 2030);
                  Click NavAbout] ++ Click NavDashboard :: map OnDashboard [])
      = Normal (v, st) /\
    session [] = Normal (dv, w) /\
    mainSections v = [SectionDashboard dv] /\
    dashboardState st = Some w.
Proof.
  apply (dashboard_remount
           [OnDashboard (SelectRegion Africa); OnDashboard (SlideYear 2030);
            Click NavAbout] []).
  discriminate.
Defined.
